(** * slicely: a time-leased handle manager around a LevelDB store

    Shallow embedding of [src/slicely/_slicely.py] (classes [DBUnit],
    [WriteBatch], [Iterator] and the two decorators) and the properties
    of its lease discipline.

    Modelling conventions.
    - Instants.  A [datetime] is the number of microseconds since the epoch
      and a [timedelta] a number of microseconds, both in [Z]
      (microseconds are the resolution of Python's [datetime]).  A Python
      number of seconds [x] (an interval or a timeout) is represented by
      [x * 10^6], so that [timedelta(seconds=x)] is the identity.
    - The manager lock.  Every public method of [DBUnit] runs under
      [self.lock] (decorator [lock_deco]); the maintenance thread gives
      the lock up only inside [self.lock.wait].  Methods are therefore
      atomic transitions of the state and the thread is observed only
      blocked in [wait], not yet scheduled, or finished.
    - The engine (plyvel) is an external collaborator: a key-value map,
      a schedule saying which of the coming [plyvel.DB(...)] calls raise
      [plyvel.Error], and counters of opens, closes and notifications.
      Its cursor goes through the keys in bytewise order; its batch is
      bound to the handle it was made on, refuses to write once that
      handle is closed, and does not expose its [transaction] flag.
    - Loops that may spin ([acquire]'s retry loop, the iterator's
      [while not acquire], [Thread.join]) take fuel.
    - Clients call the public methods only; the methods whose name
      starts with an underscore are reached through them. *)

From Stdlib Require Import ZArith Lia Bool List String.
From stdpp Require Import base option list sorting gmap strings.

Local Open Scope Z_scope.

(** ** Time and Python values *)

Definition SECOND : Z := 1000000.
Definition DAY : Z := 86400 * SECOND.

(** [INF_RELEASE_TIME = -1], as a number of seconds. *)
Definition INF_RELEASE_TIME : Z := - SECOND.

(** The poll interval of the maintenance loop, [lock.wait(timeout=0.1)]. *)
Definition POLL : Z := 100000.

(** The values [_set_release_time] is called with: a number of seconds
    ([acquire], [restart_releaser], [suspend_releaser]), a [datetime]
    ([release]) or a [timedelta] (handled by the source, never passed by
    it). *)
Inductive pyval : Type :=
| Number (x : Z)
| Datetime (t : Z)
| Timedelta (d : Z).

(** The value held by the slot [_release_time]: the source only ever
    assigns [INF_RELEASE_TIME] (lines 109, 129, 171, 210) or a
    [datetime] (line 181) to it. *)
Inductive release_time : Type :=
| Inf
| At (t : Z).

(** [timedelta.seconds]: the seconds field of the normalised
    (days, seconds, microseconds) representation, in [0, 86400). *)
Definition td_seconds (d : Z) : Z := (d mod DAY) / SECOND.

(** [x or d] on an optional number: [None] and [0] are falsy. *)
Definition py_or (x : option Z) (d : Z) : Z :=
  match x with
  | Some v => if v =? 0 then d else v
  | None => d
  end.

(** ** The state *)

(** State of the thread [_auto_releaser] as seen by the other threads. *)
Inductive thread : Type :=
| Started                       (* [start()] called, body not yet run *)
| Waiting (rt : release_time)   (* blocked in [lock.wait], local [rt] *)
| Exited.

(** [DBUnit.__slots__] (the lock is implicit, see above); a handle is
    named by the serial number of the open that produced it. *)
Record DBUnit : Type := mkDBUnit {
  default_timeout : Z;
  is_closed : bool;
  path : string;
  _auto_release_interval : Z;
  _auto_releaser : thread;
  _db : option nat;
  _release_time : release_time;
  _retry_interval : Z
}.

(** The environment: wall clock and storage engine. *)
Record World : Type := mkWorld {
  clock : Z;                       (* [datetime.now()] *)
  store : gmap string string;      (* contents of the LevelDB directory *)
  busy : list bool;                (* coming opens: [true] raises [plyvel.Error] *)
  busy_after : bool;               (* every open after those *)
  opens : nat;                     (* successful [plyvel.DB(...)] calls *)
  closes : nat;                    (* [DB.close()] calls *)
  notified : nat                   (* [lock.notify()] calls *)
}.

(** The manager object together with its environment. *)
Record State : Type := mkState { self : DBUnit; world : World }.

(** Field updates. *)
Definition set_is_closed (b : bool) (u : DBUnit) : DBUnit :=
  mkDBUnit (default_timeout u) b (path u) (_auto_release_interval u)
           (_auto_releaser u) (_db u) (_release_time u) (_retry_interval u).
Definition set__auto_releaser (t : thread) (u : DBUnit) : DBUnit :=
  mkDBUnit (default_timeout u) (is_closed u) (path u) (_auto_release_interval u)
           t (_db u) (_release_time u) (_retry_interval u).
Definition set__db (h : option nat) (u : DBUnit) : DBUnit :=
  mkDBUnit (default_timeout u) (is_closed u) (path u) (_auto_release_interval u)
           (_auto_releaser u) h (_release_time u) (_retry_interval u).
Definition set__release_time (r : release_time) (u : DBUnit) : DBUnit :=
  mkDBUnit (default_timeout u) (is_closed u) (path u) (_auto_release_interval u)
           (_auto_releaser u) (_db u) r (_retry_interval u).

Definition set_clock (t : Z) (w : World) : World :=
  mkWorld t (store w) (busy w) (busy_after w) (opens w) (closes w) (notified w).
Definition set_store (m : gmap string string) (w : World) : World :=
  mkWorld (clock w) m (busy w) (busy_after w) (opens w) (closes w) (notified w).
Definition set_busy (l : list bool) (w : World) : World :=
  mkWorld (clock w) (store w) l (busy_after w) (opens w) (closes w) (notified w).
Definition set_opens (n : nat) (w : World) : World :=
  mkWorld (clock w) (store w) (busy w) (busy_after w) n (closes w) (notified w).
Definition set_closes (n : nat) (w : World) : World :=
  mkWorld (clock w) (store w) (busy w) (busy_after w) (opens w) n (notified w).
Definition set_notified (n : nat) (w : World) : World :=
  mkWorld (clock w) (store w) (busy w) (busy_after w) (opens w) (closes w) n.

Definition on_self (f : DBUnit -> DBUnit) (s : State) : State :=
  mkState (f (self s)) (world s).
Definition on_world (f : World -> World) (s : State) : State :=
  mkState (self s) (f (world s)).

(** [datetime.now()]. *)
Definition now (s : State) : Z := clock (world s).

(** Passage of [d] microseconds. *)
Definition tick (d : Z) (s : State) : State :=
  on_world (set_clock (now s + d)) s.

(** ** Results: a state and error monad with fuel *)

Inductive exn : Type :=
| LevelDBAcquisitionFailure
| ValueError                 (* [sleep] with a negative length *)
| AttributeError             (* a method looked up on the [{}] of [db] *)
| RuntimeError               (* [plyvel]: the database is closed *)
| UserError (name : string). (* raised by the caller's block *)

Inductive Res (A : Type) : Type :=
| Return (a : A) (s : State)
| Raise (e : exn) (s : State)
| OutOfFuel.
Arguments Return {A} a s.
Arguments Raise {A} e s.
Arguments OutOfFuel {A}.

Definition M (A : Type) : Type := State -> Res A.

Definition bind {A B : Type} (m : M A) (k : A -> M B) : M B :=
  fun s => match m s with
           | Return a s' => k a s'
           | Raise e s' => Raise e s'
           | OutOfFuel => OutOfFuel
           end.
Definition ret {A : Type} (a : A) : M A := fun s => Return a s.
Definition raise {A : Type} (e : exn) : M A := fun s => Raise e s.
Definition modify (f : State -> State) : M unit := fun s => Return tt (f s).

Notation "'do' x <- m 'in' k" := (bind m (fun x => k))
  (at level 10, x name, m at level 100, k at level 200).

(** The state a result ends in, when it ends. *)
Definition final {A : Type} (r : Res A) : option State :=
  match r with
  | Return _ s => Some s
  | Raise _ s => Some s
  | OutOfFuel => None
  end.

(** ** [DBUnit]: the lease manager *)

(** [is_acquired]: [self._db is not None]. *)
Definition is_acquired (s : State) : bool :=
  match _db (self s) with Some _ => true | None => false end.

(** [releaser_is_suspended]. *)
Definition releaser_is_suspended (s : State) : bool :=
  match _release_time (self s) with Inf => true | At _ => false end.

(** The [elif] condition of [_set_release_time] (lines 177-179) for a
    [datetime] [t]; [.seconds > 0.1] is written [1 < 10 * .seconds]. *)
Definition release_time_differs (cur : release_time) (t : Z) : bool :=
  match cur with
  | Inf => true
  | At c =>
      ((c <? t) && (1 <? 10 * td_seconds (t - c)))
      || ((t <? c) && (1 <? 10 * td_seconds (c - t)))
  end.

(** [_set_release_time(release_time)]. *)
Definition _set_release_time (release_time : pyval) (s : State) : State :=
  let is_inf := match release_time with
                | Number x => x =? INF_RELEASE_TIME
                | _ => false
                end in
  if is_inf then on_self (set__release_time Inf) s
  else
    (* [isinstance(release_time, (int, float))] *)
    let release_time :=
      match release_time with
      | Number x => Datetime (Z.max 0 x + now s)
      | v => v
      end in
    match release_time with
    | Timedelta d => s     (* only the local variable is rebound *)
    | Datetime t =>
        if release_time_differs (_release_time (self s)) t
        then on_world (fun w => set_notified (S (notified w)) w)
                      (on_self (set__release_time (At t)) s)
        else s
    | Number _ => s
    end.

(** [release]. *)
Definition release (s : State) : State :=
  if is_acquired s then _set_release_time (Datetime (now s)) s else s.

(** [self._plyvel_db_factory()]: the next entry of the schedule decides
    whether [plyvel.DB(...)] raises [plyvel.Error] ([None]). *)
Definition _plyvel_db_factory (s : State) : option nat * State :=
  let w := world s in
  let (b, rest) := match busy w with
                   | b :: rest => (b, rest)
                   | [] => (busy_after w, [])
                   end in
  if b then (None, on_world (set_busy rest) s)
  else (Some (opens w),
        on_world (fun w => set_opens (S (opens w)) (set_busy rest w)) s).

(** [sleep(d)]: raises [ValueError] ([None]) on a negative length. *)
Definition sleep (d : Z) (s : State) : option State :=
  if d <? 0 then None else Some (tick d s).

(** The [while] loop of [acquire] (lines 229-244). *)
Fixpoint acquire_loop (fuel : nat) (first_flag : bool) (time_limit : Z)
         (release_interval : Z) (s : State) : Res bool :=
  match fuel with
  | O => OutOfFuel
  | S fuel' =>
      if first_flag || (now s <? time_limit) then
        if is_acquired s then
          Return true (_set_release_time (Number release_interval) s)
        else
          match _plyvel_db_factory s with
          | (Some h, s1) =>
              Return true (_set_release_time (Number release_interval)
                             (on_self (set__db (Some h)) s1))
          | (None, s1) =>
              match sleep (_retry_interval (self s1)) s1 with
              | Some s2 => acquire_loop fuel' false time_limit release_interval s2
              | None => Raise ValueError s1
              end
          end
      else Return false s
  end.

(** [acquire(release_interval=None, timeout=None)]. *)
Definition acquire (fuel : nat) (release_interval timeout : option Z) : M bool :=
  fun s =>
    let timeout := Z.max (py_or timeout (default_timeout (self s))) 0 in
    let time_limit := now s + timeout in
    let release_interval :=
      py_or release_interval (_auto_release_interval (self s)) in
    acquire_loop fuel true time_limit release_interval s.

(** [suspend_releaser(acquire=True, timeout=None)]. *)
Definition suspend_releaser (fuel : nat) (acquire_ : bool) (timeout : option Z)
  : M unit :=
  fun s =>
    if is_acquired s then Return tt (_set_release_time (Number INF_RELEASE_TIME) s)
    else if acquire_ then
      (do _ <- acquire fuel (Some INF_RELEASE_TIME) timeout in ret tt) s
    else Return tt s.

(** [restart_releaser(release_interval=None, acquire=True, timeout=None)]. *)
Definition restart_releaser (fuel : nat) (release_interval : option Z)
           (acquire_ : bool) (timeout : option Z) : M unit :=
  fun s =>
    if is_acquired s then
      Return tt (_set_release_time
                   (Number (py_or release_interval (_auto_release_interval (self s)))) s)
    else if acquire_ then
      (do _ <- acquire fuel release_interval timeout in ret tt) s
    else Return tt s.

(** *** The maintenance thread *)

(** [_wait_predicate]. *)
Definition _wait_predicate (s : State) : bool :=
  match _db (self s) with
  | None => true
  | Some _ =>
      match _release_time (self s) with
      | Inf => true
      | At t => now s <? t
      end
  end.

(** Lines 207-210: close the handle, clear it, reset the deadline. *)
Definition close_handle (s : State) : State :=
  on_world (fun w => set_closes (S (closes w)) w)
    (on_self (fun u => set__release_time Inf (set__db None u)) s).

(** [_auto_release] from the head of the outer loop (line 199) up to the
    point where the thread blocks in [lock.wait] or leaves the loop. *)
Fixpoint _auto_release (fuel : nat) (s : State) : option State :=
  match fuel with
  | O => None
  | S fuel' =>
      if is_closed (self s) then Some (on_self (set__auto_releaser Exited) s)
      else
        let rt := _release_time (self s) in
        if _wait_predicate s then Some (on_self (set__auto_releaser (Waiting rt)) s)
        else _auto_release fuel' (close_handle s)
  end.

(** One scheduling of the thread: its first run, or its return from
    [lock.wait] (notified or timed out) into the inner loop (line 202). *)
Definition wake (fuel : nat) (s : State) : option State :=
  match _auto_releaser (self s) with
  | Started => _auto_release fuel s
  | Waiting rt =>
      if _wait_predicate s then
        let cur := _release_time (self s) in
        Some (on_self (set__auto_releaser (Waiting cur)) s)
      else _auto_release fuel (close_handle s)
  | Exited => Some s
  end.

(** [self._auto_releaser.join()]: the caller has given up the lock and
    waits; the thread is scheduled, then again after each poll interval,
    until it has exited. *)
Fixpoint join (fuel : nat) (s : State) : Res unit :=
  match fuel with
  | O => OutOfFuel
  | S fuel' =>
      match wake 2 s with
      | None => OutOfFuel
      | Some s1 =>
          match _auto_releaser (self s1) with
          | Exited => Return tt s1
          | _ => join fuel' (tick POLL s1)
          end
      end
  end.

(** [close]. *)
Definition close (fuel : nat) : M unit :=
  fun s =>
    let s := on_self (set_is_closed true) s in
    (* [if self._auto_releaser:] a Thread object is truthy *)
    join fuel (release s).

(** [__init__]. *)
Definition __init__ (path : string)
           (auto_release_interval retry_interval default_timeout : Z)
           (w : World) : State :=
  mkState (mkDBUnit default_timeout false path auto_release_interval
                    Started None Inf retry_interval) w.

(** The property [db]: [self._db or {}]. *)
Definition db (s : State) : option nat := _db (self s).

(** [load_leveldb_deco(release_interval, timeout)(func)]. *)
Definition load_leveldb_deco {A : Type} (fuel : nat)
           (release_interval timeout : option Z) (func : M A) : M A :=
  do ok <- acquire fuel release_interval timeout in
  if ok then func else raise LevelDBAcquisitionFailure.

(** *** The operation facade *)

(** [get(key, default=None)]; [{}.get(key, default)] is [default]. *)
Definition get (fuel : nat) (key : string) (default : option string)
  : M (option string) :=
  load_leveldb_deco fuel None None
    (fun s => match db s with
              | Some _ =>
                  Return (match store (world s) !! key with
                          | Some v => Some v
                          | None => default
                          end) s
              | None => Return default s
              end).

(** [put(key, value)]. *)
Definition put (fuel : nat) (key value : string) : M unit :=
  load_leveldb_deco fuel None None
    (fun s => match db s with
              | Some _ => Return tt (on_world (fun w => set_store (<[key := value]> (store w)) w) s)
              | None => Raise AttributeError s
              end).

(** [delete(key)]. *)
Definition delete_ (fuel : nat) (key : string) : M unit :=
  load_leveldb_deco fuel None None
    (fun s => match db s with
              | Some _ => Return tt (on_world (fun w => set_store (base.delete key (store w)) w) s)
              | None => Raise AttributeError s
              end).

(** [DBUnit.__enter__]. *)
Definition __enter__ (fuel : nat) : M unit :=
  load_leveldb_deco fuel (Some INF_RELEASE_TIME) None (ret tt).

(** [DBUnit.__exit__(exc_type, exc_value, traceback)]: the bare [raise]
    re-raises the exception being handled. *)
Definition __exit__ (exc : option exn) : M unit :=
  match exc with
  | Some e => raise e
  | None => modify release
  end.

(** [with udb: body]; the block either completes or raises. *)
Definition with_udb (fuel : nat) (body : State -> option exn * State) : M unit :=
  do _ <- __enter__ fuel in
  fun s => let (exc, s1) := body s in __exit__ exc s1.

(** ** [WriteBatch]: the scoped batch *)

Module WriteBatch.

(** The engine batch [self.wb]: the flags it was made with, the handle
    it was made on and the buffered writes, in order ([self.udb] is the
    manager of the state). *)
Record t : Type := mk {
  transaction : bool;
  sync : bool;
  handle : nat;
  wb : list (string * string)
}.

(** [plyvel]'s [WriteBatch.clear()]. *)
Definition wb_clear (b : t) : t := mk (transaction b) (sync b) (handle b) [].

(** What [plyvel]'s [WriteBatch.write()] does to the store. *)
Definition wb_write (b : t) (m : gmap string string) : gmap string string :=
  foldl (fun m kv => <[kv.1 := kv.2]> m) m (wb b).

(** Whether the handle of the batch is open: the manager drops a handle
    only where the maintenance loop closes it (lines 207-209), and a
    later open makes a handle with another serial number. *)
Definition handle_open (b : t) (s : State) : bool :=
  match _db (self s) with
  | Some h => Nat.eqb h (handle b)
  | None => false
  end.

(** Reading [self.wb.transaction]: [plyvel] keeps the flag of its
    [WriteBatch] in a C field that is not exposed to Python, so the
    attribute does not exist ([None]: [AttributeError]). *)
Definition wb_transaction (b : t) : option bool := None.

(** [__init__(udb, transaction=False, sync=False)]. *)
Definition __init__ (transaction sync : bool) : M t :=
  fun s => match db s with
           | Some h => Return (mk transaction sync h []) s
           | None => Raise AttributeError s
           end.

(** [write]: [plyvel]'s [write()] raises [RuntimeError] on a closed
    database; then [self.udb.release()]. *)
Definition write (b : t) : M unit :=
  fun s =>
    if handle_open b s then
      Return tt (release (on_world (fun w => set_store (wb_write b (store w)) w) s))
    else Raise RuntimeError s.

(** [__enter__]. *)
Definition __enter__ (fuel : nat) : M unit := suspend_releaser fuel true None.

(** [__exit__(exc_type, exc_val, exc_tb)]: the condition of its first
    line reads [self.wb.transaction]. *)
Definition __exit__ (b : t) (exc : option exn) : M t :=
  match wb_transaction b with
  | None => raise AttributeError
  | Some tr =>
      if tr && (if exc is Some _ then true else false) then ret (wb_clear b)
      else do _ <- write b in ret (wb_clear b)
  end.

(** [put(key, value)]. *)
Definition put (key value : string) (b : t) : t :=
  mk (transaction b) (sync b) (handle b) (wb b ++ [(key, value)]).

End WriteBatch.

(** [DBUnit.write_batch(transaction, sync)]. *)
Definition write_batch (fuel : nat) (transaction sync : bool) : M WriteBatch.t :=
  load_leveldb_deco fuel (Some INF_RELEASE_TIME) None
    (WriteBatch.__init__ transaction sync).

(** [with udb.write_batch(transaction, sync) as wb: body]: an exception
    raised by [__exit__] comes out in place of the block's. *)
Definition with_write_batch (fuel : nat) (transaction sync : bool)
           (body : WriteBatch.t -> State -> option exn * WriteBatch.t * State)
  : M WriteBatch.t :=
  do b <- write_batch fuel transaction sync in
  do _ <- WriteBatch.__enter__ fuel in
  fun s =>
    let '(exc, b1, s1) := body b s in
    match WriteBatch.__exit__ b1 exc s1 with
    | Return b2 s2 =>
        match exc with
        | Some e => Raise e s2
        | None => Return b2 s2
        end
    | Raise e s2 => Raise e s2
    | OutOfFuel => OutOfFuel
    end.

(** ** [Iterator]: the scoped iterator *)

Module Iterator.

(** What the engine cursor yields. *)
Inductive item : Type :=
| KeyValue (k v : string)
| Key (k : string)
| Value (v : string)
| Neither.

(** The attributes: the keyword arguments kept for [db.iterator] and
    [self.iterator], the cursor attached by [__iter__] (named by the
    entries it was opened on). *)
Record t : Type := mk {
  include_key : bool;
  include_value : bool;
  iterator : option (list item)
}.

(** The generator object returned by [__iter__]. *)
Inductive generator : Type :=
| Created                          (* body not started *)
| Suspended (cursor : list item)   (* at the [yield], entries left *)
| Finished.

(** [__init__(udb, *args, **kwargs)]. *)
Definition __init__ (include_key include_value : bool) : t :=
  mk include_key include_value None.

(** [close]. *)
Definition close (it : t) (s : State) : t * State :=
  (mk (include_key it) (include_value it) None, release s).

(** [__del__]. *)
Definition __del__ (it : t) (s : State) : t * State :=
  match iterator it with
  | Some _ => close it s
  | None => (it, s)
  end.

(** The order of the engine's cursor: by key, bytewise. *)
Definition key_le (x y : string * string) : Prop := String.leb x.1 y.1 = true.

#[global] Instance key_le_dec : RelDecision key_le :=
  fun x y => decide (String.leb x.1 y.1 = true).

(** The entries of the store as the cursor goes through them. *)
Definition db_entries (m : gmap string string) : list (string * string) :=
  merge_sort key_le (map_to_list m).

(** [self.udb.db.iterator(include_key=..., include_value=...)]. *)
Definition db_iterator (it : t) (m : gmap string string) : list item :=
  (fun kv : string * string =>
     match include_key it, include_value it with
     | true, true => KeyValue kv.1 kv.2
     | true, false => Key kv.1
     | false, true => Value kv.2
     | false, false => Neither
     end) <$> db_entries m.

(** [while not self.udb.acquire(release_interval=INF_RELEASE_TIME): pass]. *)
Fixpoint acquire_spin (fuel : nat) (s : State) : Res unit :=
  match fuel with
  | O => OutOfFuel
  | S fuel' =>
      match acquire fuel (Some INF_RELEASE_TIME) None s with
      | Return true s1 => Return tt s1
      | Return false s1 => acquire_spin fuel' s1
      | Raise e s1 => Raise e s1
      | OutOfFuel => OutOfFuel
      end
  end.

(** [yield from self.iterator], from the cursor position [cur]: the
    next entry is yielded, or the cursor is exhausted and the [finally]
    clause runs. *)
Definition yield_from (it : t) (cur : list item) (s : State)
  : Res (option item * t * generator) :=
  match cur with
  | x :: rest => Return (Some x, it, Suspended rest) s
  | [] => let (it1, s1) := close it s in Return (None, it1, Finished) s1
  end.

(** [__iter__]: calling the generator function runs nothing. *)
Definition __iter__ (it : t) : generator := Created.

(** [next(g)] on the generator [g] of [it]; [None] is [StopIteration].
    After an exception the generator is finished and [close] has run. *)
Definition next (fuel : nat) (it : t) (g : generator)
  : M (option item * t * generator) :=
  match g with
  | Created => fun s =>
      let r := if is_acquired s then suspend_releaser fuel true None s
               else acquire_spin fuel s in
      match r with
      | Return _ s1 =>
          match db s1 with
          | Some _ =>
              let cur := db_iterator it (store (world s1)) in
              yield_from (mk (include_key it) (include_value it) (Some cur)) cur s1
          | None => Raise AttributeError (snd (close it s1))
          end
      | Raise e s1 => Raise e (snd (close it s1))
      | OutOfFuel => OutOfFuel
      end
  | Suspended cur => yield_from it cur
  | Finished => ret (None, it, Finished)
  end.

(** [g.close()], also run when a suspended generator is collected:
    [GeneratorExit] is raised at the [yield] and the [finally] clause
    runs; a generator that was never started has no frame to unwind. *)
Definition generator_close (it : t) (g : generator) (s : State)
  : t * generator * State :=
  match g with
  | Created => (it, Finished, s)
  | Suspended _ => let (it1, s1) := close it s in (it1, Finished, s1)
  | Finished => (it, Finished, s)
  end.

(** The object is dropped: its generator, if one was made, is
    collected first (it refers to the object), then [__del__] runs. *)
Definition abandon (it : t) (g : option generator) (s : State) : t * State :=
  match g with
  | Some g => let '(it1, _, s1) := generator_close it g s in __del__ it1 s1
  | None => __del__ it s
  end.

End Iterator.

(** [DBUnit.iterator(include_key=True, include_value=True)]. *)
Definition iterator (fuel : nat) (include_key include_value : bool)
  : M Iterator.t :=
  load_leveldb_deco fuel (Some INF_RELEASE_TIME) None
    (ret (Iterator.__init__ include_key include_value)).

(** ** Pickling: [__getstate__] and [__setstate__] *)

(** The values of the state dictionary. *)
Inductive pyobj : Type :=
| PyNum (x : Z)
| PyPath (p : string).

(** [__getstate__]: the dictionary, in insertion order. *)
Definition __getstate__ (u : DBUnit) : list (string * pyobj) :=
  [ ("default_timeout", PyNum (default_timeout u));
    ("path", PyPath (path u));
    ("_auto_release_interval", PyNum (_auto_release_interval u));
    ("_retry_interval", PyNum (_retry_interval u)) ]%string.

(** [setattr(self, k, v)] on the slots the dictionary may name; [None]
    stands for the [AttributeError] of a name outside [__slots__] and for
    a value that is not of the kind the slot holds in this model. *)
Definition setattr (k : string) (v : pyobj) (u : DBUnit) : option DBUnit :=
  match v with
  | PyNum x =>
      if String.eqb k "default_timeout" then
        Some (mkDBUnit x (is_closed u) (path u) (_auto_release_interval u)
                       (_auto_releaser u) (_db u) (_release_time u) (_retry_interval u))
      else if String.eqb k "_auto_release_interval" then
        Some (mkDBUnit (default_timeout u) (is_closed u) (path u) x
                       (_auto_releaser u) (_db u) (_release_time u) (_retry_interval u))
      else if String.eqb k "_retry_interval" then
        Some (mkDBUnit (default_timeout u) (is_closed u) (path u) (_auto_release_interval u)
                       (_auto_releaser u) (_db u) (_release_time u) x)
      else None
  | PyPath p =>
      if String.eqb k "path" then
        Some (mkDBUnit (default_timeout u) (is_closed u) p (_auto_release_interval u)
                       (_auto_releaser u) (_db u) (_release_time u) (_retry_interval u))
      else None
  end.

(** [__setstate__(state)] on the object [u] made by [object.__new__],
    whose slots are still unset (their content here is arbitrary). *)
Definition __setstate__ (state : list (string * pyobj)) (u : DBUnit)
  : option DBUnit :=
  u1 ← foldl (fun acc kv => u ← acc; setattr kv.1 kv.2 u) (Some u) state;
  Some (set__auto_releaser Started
          (set_is_closed false (set__db None (set__release_time Inf u1)))).

(** ** The transition system of one manager *)

(** The calls a client can make on the manager and on the batches and
    iterators bound to it. *)
Inductive call : Type :=
| Acquire (release_interval timeout : option Z)
| Release
| SuspendReleaser (acquire_ : bool) (timeout : option Z)
| RestartReleaser (release_interval : option Z) (acquire_ : bool) (timeout : option Z)
| Close
| Get (key : string) (default : option string)
| Put (key value : string)
| Delete (key : string)
| MakeIterator (include_key include_value : bool)
| MakeWriteBatch (transaction sync : bool)
| Enter
| Exit (exc : option exn)
| BatchEnter
| BatchWrite (b : WriteBatch.t)
| BatchExit (b : WriteBatch.t) (exc : option exn)
| IterNext (it : Iterator.t) (g : Iterator.generator)
| IterGeneratorClose (it : Iterator.t) (g : Iterator.generator)
| IterClose (it : Iterator.t)
| IterAbandon (it : Iterator.t) (g : option Iterator.generator).

(** The state a call ends in ([None]: out of fuel). *)
Definition run_call (fuel : nat) (c : call) (s : State) : option State :=
  match c with
  | Acquire ri to => final (acquire fuel ri to s)
  | Release => Some (release s)
  | SuspendReleaser a to => final (suspend_releaser fuel a to s)
  | RestartReleaser ri a to => final (restart_releaser fuel ri a to s)
  | Close => final (close fuel s)
  | Get k d => final (get fuel k d s)
  | Put k v => final (put fuel k v s)
  | Delete k => final (delete_ fuel k s)
  | MakeIterator ik iv => final (iterator fuel ik iv s)
  | MakeWriteBatch t sy => final (write_batch fuel t sy s)
  | Enter => final (__enter__ fuel s)
  | Exit exc => final (__exit__ exc s)
  | BatchEnter => final (WriteBatch.__enter__ fuel s)
  | BatchWrite b => final (WriteBatch.write b s)
  | BatchExit b exc => final (WriteBatch.__exit__ b exc s)
  | IterNext it g => final (Iterator.next fuel it g s)
  | IterGeneratorClose it g => Some (snd (Iterator.generator_close it g s))
  | IterClose it => Some (snd (Iterator.close it s))
  | IterAbandon it g => Some (snd (Iterator.abandon it g s))
  end.

(** One step: time passes, the maintenance thread is scheduled, or a
    call runs to its end. *)
Inductive step : State -> State -> Prop :=
| step_tick s d : 0 <= d -> step s (tick d s)
| step_wake s s' : wake 2 s = Some s' -> step s s'
| step_call s s' fuel c : run_call fuel c s = Some s' -> step s s'.

(** A manager starts from [__init__] or from [__setstate__]. *)
Inductive initial : State -> Prop :=
| initial_init p a r t w : initial (__init__ p a r t w)
| initial_unpickled state u0 u w :
    __setstate__ state u0 = Some u -> initial (mkState u w).

Inductive reachable : State -> Prop :=
| reachable_initial s : initial s -> reachable s
| reachable_step s s' : reachable s -> step s s' -> reachable s'.

(** The deadline of the data model, read off the two slots: the sentinel
    [INF_RELEASE_TIME] stands for "absent" while there is no handle and
    for "indefinite" while there is one. *)
Inductive deadline : Type :=
| Absent
| Indefinite
| Concrete (t : Z).

Definition deadline_of (u : DBUnit) : deadline :=
  match _release_time u with
  | At t => Concrete t
  | Inf => match _db u with Some _ => Indefinite | None => Absent end
  end.

(** No handle, no concrete deadline. *)
Definition lease_inv (s : State) : Prop :=
  _db (self s) = None -> _release_time (self s) = Inf.

(** ** Auxiliary notions for the statements *)

(** [waited s s']: failed open attempts and sleeps lead from [s] to [s']. *)
Definition waited (s s' : State) : Prop :=
  self s' = self s
  /\ store (world s') = store (world s)
  /\ opens (world s') = opens (world s)
  /\ closes (world s') = closes (world s)
  /\ notified (world s') = notified (world s)
  /\ now s <= now s'.

(** [opened s s']: [plyvel.DB(...)] succeeded and its handle is installed. *)
Definition opened (s s' : State) : Prop :=
  _db (self s) = None
  /\ self s' = set__db (Some (opens (world s))) (self s)
  /\ opens (world s') = S (opens (world s))
  /\ store (world s') = store (world s)
  /\ closes (world s') = closes (world s)
  /\ notified (world s') = notified (world s)
  /\ now s' = now s.

(** What the retry loop returns. *)
Definition acquire_post (release_interval : Z) (s : State) (r : Res bool) : Prop :=
  match r with
  | Return true s' =>
      exists s0 s1,
        waited s s0
        /\ ((s1 = s0 /\ is_acquired s0 = true) \/ opened s0 s1)
        /\ s' = _set_release_time (Number release_interval) s1
  | Return false s' => waited s s'
  | Raise e s' => e = ValueError /\ waited s s' /\ _retry_interval (self s) < 0
  | OutOfFuel => True
  end.

(** A result with its final state transformed. *)
Definition map_state {A : Type} (f : State -> State) (r : Res A) : Res A :=
  match r with
  | Return a s => Return a (f s)
  | Raise e s => Raise e (f s)
  | OutOfFuel => OutOfFuel
  end.

(** A fresh environment: empty store, no contention, clock at 0. *)
Definition sample_world : World := mkWorld 0 ∅ [] false 0 0 0.

(** A manager with the default configuration, just constructed. *)
Definition sample_init : State :=
  __init__ "db" (5 * SECOND) POLL (5 * SECOND) sample_world.

(** The default manager with handle 0 open, its deadline at 5 s, the
    thread waiting, seen when the clock reaches 5 s. *)
Definition sample_expired : State :=
  tick (5 * SECOND)
    (on_self (fun u => set__auto_releaser (Waiting Inf)
                         (set__release_time (At (5 * SECOND))
                            (set__db (Some 0%nat) u))) sample_init).

(** The same manager while another process holds the store: the first
    [n] opens fail. *)
Definition sample_contended (n : nat) : State :=
  on_world (set_busy (repeat true n)) sample_init.

(** The last value a batch buffer writes to a key, if any. *)
Definition last_write (key : string) (buf : list (string * string)) : option string :=
  foldl (fun acc kv => if String.eqb kv.1 key then Some kv.2 else acc) None buf.

(** The three delegating calls of the facade, and what each asks of the
    engine. *)
Inductive facade_op : Type :=
| FGet (key : string) (default : option string)
| FPut (key value : string)
| FDelete (key : string).

Definition facade (fuel : nat) (op : facade_op) : M (option string) :=
  match op with
  | FGet k d => get fuel k d
  | FPut k v => do _ <- put fuel k v in ret None
  | FDelete k => do _ <- delete_ fuel k in ret None
  end.

Definition engine_effect (op : facade_op) (m : gmap string string)
  : gmap string string * option string :=
  match op with
  | FGet k d => (m, match m !! k with Some v => Some v | None => d end)
  | FPut k v => (<[k := v]> m, None)
  | FDelete k => (base.delete k m, None)
  end.

(** Blocks for the scoped statements: one that raises at once, one that
    completes at once, one that buffers a write and then raises. *)
Definition block_raises (s : State) : option exn * State :=
  (Some (UserError "boom"), s).
Definition block_completes (s : State) : option exn * State := (None, s).

(** A block that calls [put("a", "1")] on the manager. *)
Definition block_puts (s : State) : option exn * State :=
  match put 1 "a" "1" s with
  | Return _ s' => (None, s')
  | Raise e s' => (Some e, s')
  | OutOfFuel => (None, s)
  end.
Definition batch_block_raises (b : WriteBatch.t) (s : State)
  : option exn * WriteBatch.t * State :=
  (Some (UserError "boom"), WriteBatch.put "a" "1" b, s).

(** The results whose final state satisfies a property. *)
Definition ends_in {A : Type} (P : State -> Prop) (r : Res A) : Prop :=
  match final r with Some s' => P s' | None => True end.

(** ** Notions for the properties of whole runs *)

(** Any number of steps. *)
Inductive steps : State -> State -> Prop :=
| steps_refl s : steps s s
| steps_step s s1 s' : step s s1 -> steps s1 s' -> steps s s'.

(** Idle passage: no call is made, only the clock advances and the
    maintenance thread is scheduled. *)
Inductive idle : State -> State -> Prop :=
| idle_refl s : idle s s
| idle_tick s s' d : 0 <= d -> idle (tick d s) s' -> idle s s'
| idle_wake s s1 s' : wake 2 s = Some s1 -> idle s1 s' -> idle s s'.

(** The four configuration slots. *)
Definition config (u : DBUnit) : Z * string * Z * Z :=
  (default_timeout u, path u, _auto_release_interval u, _retry_interval u).

(** Engine handles opened and not closed, beyond the one the manager
    holds. *)
Definition balance (s : State) : Z :=
  Z.of_nat (opens (world s)) - Z.of_nat (closes (world s))
  - (if is_acquired s then 1 else 0).

(** The instant at which an [acquire] called in [s] gives up. *)
Definition time_limit (timeout : option Z) (s : State) : Z :=
  now s + Z.max (py_or timeout (default_timeout (self s))) 0.

(** [for x in g: acc.append(x)] on the generator [g] of [it], at most
    [rounds] advances: the entries collected, when the generator ends. *)
Fixpoint for_each (rounds fuel : nat) (it : Iterator.t) (g : Iterator.generator)
         (acc : list Iterator.item) (s : State)
  : Res (list Iterator.item * Iterator.t) :=
  match rounds with
  | O => OutOfFuel
  | S rounds' =>
      match Iterator.next fuel it g s with
      | Return (Some x, it1, g1) s1 => for_each rounds' fuel it1 g1 (acc ++ [x]) s1
      | Return (None, it1, _) s1 => Return (acc, it1) s1
      | Raise e s1 => Raise e s1
      | OutOfFuel => OutOfFuel
      end
  end.

(** Further states and a batch for the examples: the default manager
    holding handle 0, the same with a deadline at 5 s, the same over a
    store of three entries; a batch of three puts made on handle 0. *)
Definition sample_acquired : State :=
  on_self (set__db (Some 0%nat)) sample_init.
Definition sample_open : State :=
  on_self (set__release_time (At (5 * SECOND))) sample_acquired.
Definition sample_three_entries : State :=
  on_world (set_store (<["c" := "3"]> (<["a" := "1"]> (<["b" := "2"]> ∅))))
           sample_acquired.
Definition sample_batch : WriteBatch.t :=
  WriteBatch.put "a" "3"
    (WriteBatch.put "b" "2"
       (WriteBatch.put "a" "1" (WriteBatch.mk false false 0 []))).

(** * Properties *)

(** ** Deadline updates *)

Lemma td_seconds_small d : 0 <= d < SECOND -> td_seconds d = 0.
Proof.
  intros H. unfold td_seconds, DAY, SECOND in *.
  rewrite Z.mod_small by lia. apply Z.div_small. lia.
Qed.

Lemma td_seconds_large d : SECOND <= d < DAY -> 1 <= td_seconds d.
Proof.
  intros H. unfold td_seconds, DAY, SECOND in *.
  rewrite Z.mod_small by lia.
  apply Z.div_le_lower_bound; lia.
Qed.

Lemma release_time_differs_Inf t : release_time_differs Inf t = true.
Proof. reflexivity. Qed.

Lemma release_time_differs_near c t :
  Z.abs (t - c) < SECOND -> release_time_differs (At c) t = false.
Proof.
  intros H. unfold release_time_differs.
  destruct (Z.ltb_spec c t), (Z.ltb_spec t c); simpl; try lia;
    rewrite ?td_seconds_small by lia; reflexivity.
Qed.

Lemma release_time_differs_far c t :
  SECOND <= Z.abs (t - c) < DAY -> release_time_differs (At c) t = true.
Proof.
  intros H. unfold release_time_differs.
  assert (0 < SECOND) by (unfold SECOND; lia).
  destruct (Z.ltb_spec c t), (Z.ltb_spec t c); simpl; try lia.
  - pose proof (td_seconds_large (t - c)).
    destruct (Z.ltb_spec 1 (10 * td_seconds (t - c))); [reflexivity | lia].
  - pose proof (td_seconds_large (c - t)).
    destruct (Z.ltb_spec 1 (10 * td_seconds (c - t))); [reflexivity | lia].
Qed.

(** [_set_release_time] touches the deadline and the notification
    counter, nothing else. *)
Lemma _set_release_time_frame v s :
  let s' := _set_release_time v s in
  _db (self s') = _db (self s)
  /\ is_closed (self s') = is_closed (self s)
  /\ _auto_releaser (self s') = _auto_releaser (self s)
  /\ default_timeout (self s') = default_timeout (self s)
  /\ path (self s') = path (self s)
  /\ _auto_release_interval (self s') = _auto_release_interval (self s)
  /\ _retry_interval (self s') = _retry_interval (self s)
  /\ clock (world s') = clock (world s)
  /\ store (world s') = store (world s)
  /\ busy (world s') = busy (world s)
  /\ busy_after (world s') = busy_after (world s)
  /\ opens (world s') = opens (world s)
  /\ closes (world s') = closes (world s).
Proof.
  unfold _set_release_time.
  destruct v as [x | t | d]; simpl.
  - destruct (x =? INF_RELEASE_TIME); simpl; [tauto |].
    destruct (release_time_differs _ _); simpl; tauto.
  - destruct (release_time_differs _ _); simpl; tauto.
  - tauto.
Qed.

Lemma _set_release_time_db v s : _db (self (_set_release_time v s)) = _db (self s).
Proof. apply (_set_release_time_frame v s). Qed.

Lemma _set_release_time_store v s :
  store (world (_set_release_time v s)) = store (world s).
Proof. apply (_set_release_time_frame v s). Qed.

Lemma _set_release_time_now v s : now (_set_release_time v s) = now s.
Proof. apply (_set_release_time_frame v s). Qed.

Lemma _set_release_time_opens v s :
  opens (world (_set_release_time v s)) = opens (world s).
Proof. apply (_set_release_time_frame v s). Qed.

Lemma is_acquired_set_release_time v s :
  is_acquired (_set_release_time v s) = is_acquired s.
Proof. unfold is_acquired. now rewrite _set_release_time_db. Qed.

Lemma release_not_acquired s : is_acquired s = false -> release s = s.
Proof. intros Ha. unfold release. now rewrite Ha. Qed.

(** A number of seconds other than the sentinel asks for the instant
    [now + max(0, x)]. *)
Lemma _set_release_time_number x s :
  x <> INF_RELEASE_TIME ->
  _set_release_time (Number x) s = _set_release_time (Datetime (Z.max 0 x + now s)) s.
Proof.
  intros H. unfold _set_release_time.
  destruct (Z.eqb_spec x INF_RELEASE_TIME); [contradiction | reflexivity].
Qed.

Lemma _set_release_time_INF s :
  _release_time (self (_set_release_time (Number INF_RELEASE_TIME) s)) = Inf.
Proof. reflexivity. Qed.

Lemma _set_release_time_applied t s :
  release_time_differs (_release_time (self s)) t = true ->
  _release_time (self (_set_release_time (Datetime t) s)) = At t
  /\ notified (world (_set_release_time (Datetime t) s)) = S (notified (world s)).
Proof. intros H. unfold _set_release_time. simpl. rewrite H. simpl. auto. Qed.

Lemma _set_release_time_ignored t s :
  release_time_differs (_release_time (self s)) t = false ->
  _set_release_time (Datetime t) s = s.
Proof. intros H. unfold _set_release_time. simpl. now rewrite H. Qed.

(** ** Acquisition *)

Lemma waited_refl s : waited s s.
Proof. unfold waited. repeat split; lia. Qed.

Lemma waited_trans s1 s2 s3 : waited s1 s2 -> waited s2 s3 -> waited s1 s3.
Proof.
  unfold waited. intros (a1 & a2 & a3 & a4 & a5 & a6) (b1 & b2 & b3 & b4 & b5 & b6).
  repeat split; try congruence. lia.
Qed.

Lemma factory_busy s s1 :
  _plyvel_db_factory s = (None, s1) ->
  self s1 = self s /\ waited s s1 /\ now s1 = now s.
Proof.
  unfold _plyvel_db_factory.
  destruct (busy (world s)) as [| b rest].
  - destruct (busy_after (world s)); intros H; inversion H; subst.
    unfold waited, now; simpl. repeat split; lia.
  - destruct b; intros H; inversion H; subst.
    unfold waited, now; simpl. repeat split; lia.
Qed.

Lemma factory_open s h s1 :
  _plyvel_db_factory s = (Some h, s1) ->
  h = opens (world s) /\ self s1 = self s
  /\ opens (world s1) = S (opens (world s))
  /\ store (world s1) = store (world s)
  /\ closes (world s1) = closes (world s)
  /\ notified (world s1) = notified (world s)
  /\ now s1 = now s.
Proof.
  unfold _plyvel_db_factory.
  destruct (busy (world s)) as [| b rest].
  - destruct (busy_after (world s)); intros H; inversion H; subst.
    unfold now; simpl. repeat split.
  - destruct b; intros H; inversion H; subst.
    unfold now; simpl. repeat split.
Qed.

Lemma sleep_waited d s s' : sleep d s = Some s' -> waited s s' /\ now s' = now s + d /\ 0 <= d.
Proof.
  unfold sleep. destruct (Z.ltb_spec d 0); intros H'; inversion H'; subst.
  unfold waited, tick, now; simpl. repeat split; lia.
Qed.

Lemma acquire_loop_post fuel : forall first_flag time_limit release_interval s,
  acquire_post release_interval s
    (acquire_loop fuel first_flag time_limit release_interval s).
Proof.
  induction fuel as [| fuel IH]; intros ff tl ri s; simpl; [exact I |].
  destruct (ff || (now s <? tl)); [| apply waited_refl].
  destruct (is_acquired s) eqn:Hacq.
  { exists s, s. split; [apply waited_refl |]. split; [left; auto | reflexivity]. }
  destruct (_plyvel_db_factory s) as [[h |] s1] eqn:Hf.
  - apply factory_open in Hf as (-> & Hself & Ho & Hst & Hc & Hn & Hnow).
    exists s, (on_self (set__db (Some (opens (world s)))) s1).
    split; [apply waited_refl |]. split; [| reflexivity].
    right. unfold opened, now in *; simpl. rewrite Hself.
    unfold is_acquired in Hacq. destruct (_db (self s)); [discriminate |].
    repeat split; assumption.
  - apply factory_busy in Hf as (Hself & Hw & Hnow).
    destruct (sleep (_retry_interval (self s1)) s1) as [s2 |] eqn:Hs.
    + apply sleep_waited in Hs as (Hw2 & _ & _).
      pose proof (waited_trans _ _ _ Hw Hw2) as Hw3.
      specialize (IH false tl ri s2).
      destruct (acquire_loop fuel false tl ri s2) as [[|] s' | e s' |]; simpl in *.
      * destruct IH as (s0 & s1' & Ha & Hb & Hc).
        exists s0, s1'. split; [eapply waited_trans; eauto | auto].
      * eapply waited_trans; eauto.
      * destruct IH as (He & Ha & Hb). split; [auto |].
        split; [eapply waited_trans; eauto |].
        destruct Hw3 as (Hs3 & _). now rewrite <- Hs3.
      * exact I.
    + simpl. split; [reflexivity |]. split; [assumption |].
      unfold sleep in Hs. rewrite Hself in Hs.
      destruct (Z.ltb_spec (_retry_interval (self s)) 0); [assumption | discriminate].
Qed.

Lemma acquire_post_holds fuel release_interval timeout s :
  acquire_post (py_or release_interval (_auto_release_interval (self s))) s
    (acquire fuel release_interval timeout s).
Proof. unfold acquire. apply acquire_loop_post. Qed.

(** [acquire] never returns [False] while the handle is open. *)
Lemma acquire_false_not_acquired fuel release_interval timeout s s' :
  acquire fuel release_interval timeout s = Return false s' ->
  is_acquired s = false /\ _db (self s') = None.
Proof.
  intros H. pose proof (acquire_post_holds fuel release_interval timeout s) as P.
  rewrite H in P. simpl in P. destruct P as (Hself & _).
  unfold acquire in H. destruct fuel as [| fuel]; simpl in H; [discriminate |].
  unfold is_acquired in *. rewrite Hself.
  destruct (_db (self s)); [discriminate | auto].
Qed.

(** After a successful [acquire] the handle is open. *)
Lemma acquire_true_acquired fuel release_interval timeout s s' :
  acquire fuel release_interval timeout s = Return true s' ->
  is_acquired s' = true.
Proof.
  intros H. pose proof (acquire_post_holds fuel release_interval timeout s) as P.
  rewrite H in P. simpl in P. destruct P as (s0 & s1 & _ & [[-> Ha] | Ho] & ->);
    rewrite is_acquired_set_release_time; [assumption |].
  destruct Ho as (_ & Hs & _). unfold is_acquired. now rewrite Hs.
Qed.

(** The retry loop ends: with a positive retry interval, fuel beyond the
    number of retry intervals in the timeout always suffices. *)
Lemma acquire_loop_terminates_retry fuel : forall time_limit release_interval s,
  0 < _retry_interval (self s) ->
  time_limit - now s <= Z.of_nat fuel * _retry_interval (self s) ->
  acquire_loop (S fuel) false time_limit release_interval s <> OutOfFuel.
Proof.
  induction fuel as [| fuel IH]; intros tl ri s Hr Hlim.
  - cbn [acquire_loop orb]. destruct (now s <? tl) eqn:E; [| discriminate].
    apply Z.ltb_lt in E. lia.
  - remember (S fuel) as n. cbn [acquire_loop orb].
    destruct (now s <? tl); [| discriminate].
    destruct (is_acquired s); [discriminate |].
    destruct (_plyvel_db_factory s) as [[h |] s1] eqn:Hf; [discriminate |].
    apply factory_busy in Hf as (Hself & _ & Hnow).
    destruct (sleep (_retry_interval (self s1)) s1) as [s2 |] eqn:Hs; [| discriminate].
    apply sleep_waited in Hs as ((Hself2 & _) & Hnow2 & _).
    subst n. apply IH.
    + rewrite Hself2, Hself. assumption.
    + rewrite Hself2, Hself, Hnow2, Hnow, Hself. lia.
Qed.

Lemma acquire_loop_terminates fuel time_limit release_interval s :
  0 < _retry_interval (self s) ->
  time_limit - now s <= Z.of_nat fuel * _retry_interval (self s) ->
  acquire_loop (S (S fuel)) true time_limit release_interval s <> OutOfFuel.
Proof.
  intros Hr Hlim. remember (S fuel) as n. cbn [acquire_loop orb].
  destruct (is_acquired s); [discriminate |].
  destruct (_plyvel_db_factory s) as [[h |] s1] eqn:Hf; [discriminate |].
  apply factory_busy in Hf as (Hself & _ & Hnow).
  destruct (sleep (_retry_interval (self s1)) s1) as [s2 |] eqn:Hs; [| discriminate].
  apply sleep_waited in Hs as ((Hself2 & _) & Hnow2 & _).
  subst n. apply acquire_loop_terminates_retry.
  - rewrite Hself2, Hself. assumption.
  - rewrite Hself2, Hself, Hnow2, Hnow, Hself. lia.
Qed.

(** More fuel never changes a result. *)
Lemma acquire_loop_fuel_mono fuel : forall first_flag time_limit release_interval s,
  acquire_loop fuel first_flag time_limit release_interval s <> OutOfFuel ->
  acquire_loop (S fuel) first_flag time_limit release_interval s
  = acquire_loop fuel first_flag time_limit release_interval s.
Proof.
  induction fuel as [| fuel IH]; intros ff tl ri s H; [now contradict H |].
  remember (S fuel) as n. cbn [acquire_loop]. subst n. cbn [acquire_loop] in *.
  destruct (ff || (now s <? tl)); [| reflexivity].
  destruct (is_acquired s); [reflexivity |].
  destruct (_plyvel_db_factory s) as [[h |] s1]; [reflexivity |].
  destruct (sleep _ s1) as [s2 |]; [| reflexivity].
  apply IH. exact H.
Qed.

Lemma acquire_terminates release_interval timeout s :
  0 < _retry_interval (self s) ->
  exists n, forall fuel, (n <= fuel)%nat ->
    acquire fuel release_interval timeout s <> OutOfFuel.
Proof.
  intros Hr.
  set (t := Z.max (py_or timeout (default_timeout (self s))) 0).
  exists (S (S (Z.to_nat t))). intros fuel Hle.
  destruct fuel as [| [| fuel]]; [lia | lia |].
  unfold acquire. apply acquire_loop_terminates; [assumption |].
  fold t. assert (0 <= t) by (unfold t; lia).
  assert (Z.to_nat t <= fuel)%nat by lia.
  nia.
Qed.

(** C3 (as the code behaves).  [acquire(timeout=0)] does not return at
    once: [timeout or self.default_timeout] takes the falsy [0] for "no
    timeout given", so the call is the call with the default timeout.
    With the store held by another process for the first open, the call
    sleeps one retry interval, retries and returns [True]; with the store
    held throughout, it retries for the whole default timeout (5 s, fifty
    sleeps of 100 ms) before it returns [False]. *)
Theorem acquire_timeout_zero_waits_default_timeout :
  (forall fuel release_interval s,
      acquire fuel release_interval (Some 0) s = acquire fuel release_interval None s)
  /\ (exists s', acquire 3 None (Some 0) (sample_contended 1) = Return true s'
                 /\ now s' = now (sample_contended 1) + POLL
                 /\ _db (self s') = Some 0%nat)
  /\ (exists s', acquire 60 None (Some 0) (sample_contended 50) = Return false s'
                 /\ now s' = now (sample_contended 50) + 5 * SECOND
                 /\ busy (world s') = []).
Proof.
  split; [reflexivity |]. split.
  - eexists. split; [vm_compute; reflexivity |]. split; reflexivity.
  - eexists. split; [vm_compute; reflexivity |]. split; reflexivity.
Qed.

(** A timeout that is negative, hence clamped to zero by [max(..., 0)],
    does give the single attempt. *)
Lemma acquire_negative_timeout_single_attempt :
  exists s', acquire 3 None (Some (-1)) (sample_contended 5) = Return false s'
             /\ busy (world s') = repeat true 4.
Proof. eexists. split; [vm_compute; reflexivity | reflexivity]. Qed.

(** C4 (as the code behaves).  With the handle open and the deadline at
    the instant 10 s, a request for 10.5 s (or 9.5 s), half a second away
    and so more than 100 ms, leaves the deadline and the notification
    count as they were: the test reads [timedelta.seconds], the whole
    seconds of the difference, which is 0 below one second.  The same
    through the public interface: [restart_releaser(5)] half a second
    after [acquire(5)] does not move the deadline. *)
Theorem debounce_ignores_change_below_one_second :
  let s := on_self (fun u => set__release_time (At (10 * SECOND)) (set__db (Some 0%nat) u))
                   sample_init in
  _set_release_time (Datetime (10 * SECOND + 500000)) s = s
  /\ _set_release_time (Datetime (10 * SECOND - 500000)) s = s
  /\ (exists s1 s2,
         acquire 1 (Some (5 * SECOND)) None sample_init = Return true s1
         /\ _release_time (self s1) = At (5 * SECOND)
         /\ restart_releaser 1 (Some (5 * SECOND)) true None (tick 500000 s1) = Return tt s2
         /\ now s2 + 5 * SECOND = 5 * SECOND + 500000
         /\ _release_time (self s2) = At (5 * SECOND)
         /\ notified (world s2) = notified (world s1)).
Proof.
  split; [reflexivity |]. split; [reflexivity |].
  eexists. eexists.
  split; [vm_compute; reflexivity |].
  split; [reflexivity |].
  split; [vm_compute; reflexivity |].
  repeat split.
Qed.

(** The parts of the debounce the code does implement: a request within
    100 ms of a concrete deadline is ignored, *)
Lemma debounce_ignores_within_100ms t s c :
  _release_time (self s) = At c -> Z.abs (t - c) <= POLL ->
  _set_release_time (Datetime t) s = s.
Proof.
  intros Hc Hd. apply _set_release_time_ignored. rewrite Hc.
  apply release_time_differs_near. unfold POLL, SECOND in *. lia.
Qed.

(** a request a second or more (and less than a day) away is applied and
    notified, *)
Lemma debounce_applies_from_one_second t s c :
  _release_time (self s) = At c -> SECOND <= Z.abs (t - c) < DAY ->
  _release_time (self (_set_release_time (Datetime t) s)) = At t
  /\ notified (world (_set_release_time (Datetime t) s)) = S (notified (world s)).
Proof.
  intros Hc Hd. apply _set_release_time_applied. rewrite Hc.
  now apply release_time_differs_far.
Qed.

(** and the changes between indefinite and concrete are always applied
    (the one to indefinite without a notification). *)
Lemma debounce_indefinite_transitions t s :
  (_release_time (self s) = Inf ->
   _release_time (self (_set_release_time (Datetime t) s)) = At t
   /\ notified (world (_set_release_time (Datetime t) s)) = S (notified (world s)))
  /\ _release_time (self (_set_release_time (Number INF_RELEASE_TIME) s)) = Inf
  /\ notified (world (_set_release_time (Number INF_RELEASE_TIME) s)) = notified (world s).
Proof.
  split; [| split; reflexivity].
  intros Hc. apply _set_release_time_applied. now rewrite Hc.
Qed.

(** ** The closed flag *)

Lemma _set_release_time_closed b v s :
  _set_release_time v (on_self (set_is_closed b) s)
  = on_self (set_is_closed b) (_set_release_time v s).
Proof.
  unfold _set_release_time.
  destruct v as [x | t | d]; simpl.
  - destruct (x =? INF_RELEASE_TIME); [reflexivity |].
    unfold now; simpl.
    destruct (release_time_differs _ _); reflexivity.
  - destruct (release_time_differs _ _); reflexivity.
  - reflexivity.
Qed.

Lemma acquire_loop_closed b fuel : forall first_flag time_limit release_interval s,
  acquire_loop fuel first_flag time_limit release_interval (on_self (set_is_closed b) s)
  = map_state (on_self (set_is_closed b))
      (acquire_loop fuel first_flag time_limit release_interval s).
Proof.
  induction fuel as [| fuel IH]; intros ff tl ri s; [reflexivity |].
  cbn [acquire_loop].
  change (now (on_self (set_is_closed b) s)) with (now s).
  destruct (ff || (now s <? tl)); [| reflexivity].
  change (is_acquired (on_self (set_is_closed b) s)) with (is_acquired s).
  destruct (is_acquired s).
  { simpl. now rewrite _set_release_time_closed. }
  unfold _plyvel_db_factory.
  change (world (on_self (set_is_closed b) s)) with (world s).
  destruct (match busy (world s) with
            | [] => (busy_after (world s), [])
            | b0 :: rest => (b0, rest)
            end) as [busy_now rest].
  destruct busy_now.
  - cbn [self on_world on_self set_is_closed _retry_interval].
    unfold sleep.
    destruct (_retry_interval (self s) <? 0); [reflexivity |].
    apply (IH false tl ri (tick (_retry_interval (self s)) (on_world (set_busy rest) s))).
  - simpl. f_equal.
    apply (_set_release_time_closed b (Number ri)
             (on_self (set__db (Some (opens (world s))))
                (on_world (fun w => set_opens (S (opens w)) (set_busy rest w)) s))).
Qed.

(** C2 (refuted as stated).  A run of the default manager: the thread is
    scheduled, [acquire] opens handle 0, [close()] returns with the flag
    set and the handle closed by the exiting thread; the next [acquire]
    returns [True] and installs a second handle. *)
Lemma acquire_succeeds_after_close :
  exists s1 s2 s3 s4,
    wake 2 sample_init = Some s1
    /\ acquire 1 None None s1 = Return true s2
    /\ close 1 s2 = Return tt s3
    /\ is_closed (self s3) = true
    /\ _db (self s3) = None
    /\ _auto_releaser (self s3) = Exited
    /\ acquire 1 None None s3 = Return true s4
    /\ is_closed (self s4) = true
    /\ _db (self s4) = Some 1%nat
    /\ opens (world s4) = 2%nat.
Proof.
  do 4 eexists.
  split; [vm_compute; reflexivity |].
  split; [vm_compute; reflexivity |].
  split; [vm_compute; reflexivity |].
  repeat split.
Qed.

(** C2 (amended).  [acquire] does not read the closed flag: on a closed
    manager it does what it does on an open one, result, handle, deadline
    and engine alike. *)
Theorem acquire_ignores_closed_flag :
  forall b fuel release_interval timeout s,
    acquire fuel release_interval timeout (on_self (set_is_closed b) s)
    = map_state (on_self (set_is_closed b))
        (acquire fuel release_interval timeout s).
Proof.
  intros b fuel ri to s. unfold acquire.
  change (now (on_self (set_is_closed b) s)) with (now s).
  apply acquire_loop_closed.
Qed.

(** ** The maintenance loop *)

Lemma _wait_predicate_spec s :
  _wait_predicate s = true <->
  (_db (self s) = None \/ _release_time (self s) = Inf
   \/ exists t, _release_time (self s) = At t /\ now s < t).
Proof.
  unfold _wait_predicate.
  destruct (_db (self s)) as [h |]; [| split; auto].
  destruct (_release_time (self s)) as [| t]; [split; auto |].
  rewrite Z.ltb_lt. split.
  - intros H. right. right. exists t. auto.
  - intros [H | [H | (t' & H & Hlt)]]; try discriminate.
    inversion H. subst. assumption.
Qed.

Lemma _wait_predicate_false s :
  _wait_predicate s = false <->
  exists h t, _db (self s) = Some h /\ _release_time (self s) = At t /\ t <= now s.
Proof.
  unfold _wait_predicate.
  destruct (_db (self s)) as [h |].
  - destruct (_release_time (self s)) as [| t].
    + split; [discriminate | intros (? & ? & _ & ? & _); discriminate].
    + rewrite Z.ltb_ge. split.
      * intros H. exists h, t. auto.
      * intros (? & t' & _ & H & Hle). inversion H. subst. assumption.
  - split; [discriminate | intros (? & ? & ? & _); discriminate].
Qed.

Lemma _wait_predicate_close_handle s : _wait_predicate (close_handle s) = true.
Proof. reflexivity. Qed.

(** After the handle is closed the loop reaches [wait] or its end. *)
Lemma _auto_release_after_close s :
  _auto_release 1 (close_handle s)
  = Some (on_self (set__auto_releaser
                     (if is_closed (self s) then Exited else Waiting Inf))
            (close_handle s)).
Proof. simpl. destruct (is_closed (self s)); reflexivity. Qed.

(** Two rounds of the outer loop always suffice. *)
Lemma wake_total s : exists s', wake 2 s = Some s'.
Proof.
  unfold wake. destruct (_auto_releaser (self s)); cbn [_auto_release].
  - destruct (is_closed (self s)); [eauto |].
    destruct (_wait_predicate s); [eauto |].
    change (is_closed (self (close_handle s))) with (is_closed (self s)).
    destruct (is_closed (self s)); [eauto |].
    rewrite _wait_predicate_close_handle. eauto.
  - destruct (_wait_predicate s); [eauto |].
    change (is_closed (self (close_handle s))) with (is_closed (self s)).
    destruct (is_closed (self s)); [eauto |].
    rewrite _wait_predicate_close_handle. eauto.
  - eauto.
Qed.

(** A scheduling of the thread either leaves everything but the thread's
    own state alone, or closes the handle. *)
Lemma wake_cases s s' :
  wake 2 s = Some s' ->
  (exists th, s' = on_self (set__auto_releaser th) s)
  \/ (_wait_predicate s = false
      /\ exists th, s' = on_self (set__auto_releaser th) (close_handle s)).
Proof.
  unfold wake. destruct (_auto_releaser (self s)) eqn:Ht; cbn [_auto_release].
  - destruct (is_closed (self s)) eqn:Hc.
    { intros H; inversion H; subst. left. eauto. }
    destruct (_wait_predicate s) eqn:Hp.
    { intros H; inversion H; subst. left. eauto. }
    change (is_closed (self (close_handle s))) with (is_closed (self s)).
    rewrite Hc, _wait_predicate_close_handle.
    intros H; inversion H; subst. right. split; [reflexivity |].
    exists (Waiting Inf). reflexivity.
  - destruct (_wait_predicate s) eqn:Hp.
    { intros H; inversion H; subst. left. eauto. }
    change (is_closed (self (close_handle s))) with (is_closed (self s)).
    destruct (is_closed (self s)) eqn:Hc.
    + intros H; inversion H; subst. right. split; [reflexivity |].
      exists Exited. reflexivity.
    + rewrite _wait_predicate_close_handle.
      intros H; inversion H; subst. right. split; [reflexivity |].
      exists (Waiting Inf). reflexivity.
  - intros H; inversion H; subst. left. exists Exited.
    destruct s' as [[] ?]. simpl in *. now subst.
Qed.

(** C6.  One scheduling of the maintenance loop always comes to an end
    and
    - while the handle is absent, or the deadline is indefinite, or the
      deadline is an instant still ahead, it changes nothing of the
      manager but the thread's own state, and nothing of the engine;
    - if it changes the handle or closes an engine handle, then the
      handle was open with a concrete deadline not after [now], and it
      has closed the handle, cleared it and reset the deadline;
    - a waiting thread that finds the handle open and its deadline passed
      does close it. *)
Theorem maintenance_loop_never_closes_early :
  forall s, exists s',
    wake 2 s = Some s'
    /\ ((_db (self s) = None \/ _release_time (self s) = Inf
         \/ exists t, _release_time (self s) = At t /\ now s < t) ->
        _db (self s') = _db (self s)
        /\ _release_time (self s') = _release_time (self s)
        /\ is_closed (self s') = is_closed (self s)
        /\ world s' = world s)
    /\ ((_db (self s') <> _db (self s) \/ closes (world s') <> closes (world s)) ->
        exists h t,
          _db (self s) = Some h /\ _release_time (self s) = At t /\ t <= now s
          /\ _db (self s') = None /\ _release_time (self s') = Inf
          /\ closes (world s') = S (closes (world s))
          /\ store (world s') = store (world s))
    /\ (forall rt h t,
          _auto_releaser (self s) = Waiting rt ->
          _db (self s) = Some h -> _release_time (self s) = At t -> t <= now s ->
          _db (self s') = None /\ _release_time (self s') = Inf
          /\ closes (world s') = S (closes (world s))
          /\ _auto_releaser (self s')
             = if is_closed (self s) then Exited else Waiting Inf).
Proof.
  intros s. destruct (wake_total s) as (s' & Hw). exists s'.
  split; [exact Hw |].
  pose proof (wake_cases s s' Hw) as Hc.
  split; [| split].
  - intros Hwait. apply _wait_predicate_spec in Hwait.
    destruct Hc as [(th & ->) | (Hp & _)]; [| congruence].
    simpl. auto.
  - intros Hchg. destruct Hc as [(th & ->) | (Hp & th & ->)].
    + simpl in Hchg. destruct Hchg as [H | H]; now contradict H.
    + apply _wait_predicate_false in Hp as (h & t & Hdb & Hrt & Hle).
      exists h, t. simpl. auto 10.
  - intros rt h t Hth Hdb Hrt Hle.
    assert (Hp : _wait_predicate s = false).
    { apply _wait_predicate_false. eauto. }
    unfold wake in Hw. rewrite Hth, Hp in Hw.
    cbn [_auto_release] in Hw.
    change (is_closed (self (close_handle s))) with (is_closed (self s)) in Hw.
    destruct (is_closed (self s)).
    + inversion Hw; subst. simpl. auto.
    + rewrite _wait_predicate_close_handle in Hw. inversion Hw; subst. simpl. auto.
Qed.

(** The handle opened with the default interval, when its 5 s are over. *)
Lemma maintenance_loop_never_closes_early_witness :
  exists s', wake 2 sample_expired = Some s' /\ _db (self s') = None
             /\ _release_time (self s') = Inf.
Proof.
  destruct (maintenance_loop_never_closes_early sample_expired)
    as (s' & Hw & _ & _ & Hclose).
  exists s'. split; [exact Hw |].
  destruct (Hclose Inf 0%nat (5 * SECOND)) as (H1 & H2 & _).
  - reflexivity.
  - reflexivity.
  - reflexivity.
  - vm_compute. discriminate.
  - split; assumption.
Defined.

(** [close()] on a manager without a handle does not return: the inner
    loop of [_auto_release] does not look at [is_closed], and with no
    handle [_wait_predicate] holds at every poll. *)
Lemma join_blocks_without_handle fuel : forall s rt,
  _auto_releaser (self s) = Waiting rt -> _db (self s) = None ->
  join fuel s = OutOfFuel.
Proof.
  induction fuel as [| fuel IH]; intros s rt Hth Hdb; [reflexivity |].
  cbn [join]. unfold wake, _wait_predicate. rewrite Hth, Hdb.
  cbn [self on_self set__auto_releaser _auto_releaser].
  apply (IH _ (_release_time (self s))); [reflexivity | exact Hdb].
Qed.

Lemma close_blocks_without_handle fuel s rt :
  _auto_releaser (self s) = Waiting rt -> _db (self s) = None ->
  close fuel s = OutOfFuel.
Proof.
  intros Hth Hdb. unfold close.
  rewrite release_not_acquired.
  - apply (join_blocks_without_handle fuel _ rt); assumption.
  - unfold is_acquired. simpl. now rewrite Hdb.
Qed.

(** ** The invariant of the two slots *)

Lemma lease_inv_acquired s : is_acquired s = true -> lease_inv s.
Proof.
  unfold lease_inv, is_acquired. destruct (_db (self s)); [discriminate 2 | discriminate 1].
Qed.

Lemma lease_inv_self s s' : self s' = self s -> lease_inv s -> lease_inv s'.
Proof. unfold lease_inv. intros ->. auto. Qed.

Lemma lease_inv_thread th s : lease_inv s -> lease_inv (on_self (set__auto_releaser th) s).
Proof. unfold lease_inv. simpl. auto. Qed.

Lemma lease_inv_set_release_time v s :
  is_acquired s = true -> lease_inv (_set_release_time v s).
Proof.
  intros H. apply lease_inv_acquired. now rewrite is_acquired_set_release_time.
Qed.

Lemma lease_inv_release s : lease_inv s -> lease_inv (release s).
Proof.
  intros H. unfold release. destruct (is_acquired s) eqn:Ha; [| exact H].
  now apply lease_inv_set_release_time.
Qed.

Create HintDb lease.
#[local] Hint Resolve lease_inv_release lease_inv_thread lease_inv_set_release_time
  lease_inv_acquired : lease.

Lemma ends_in_bind {A B : Type} (P Q : State -> Prop) (m : M A) (k : A -> M B) s :
  (forall s', Q s' -> P s') ->
  ends_in Q (m s) ->
  (forall a s', Q s' -> ends_in P (k a s')) ->
  ends_in P (bind m k s).
Proof.
  unfold ends_in, bind. intros HQP Hm Hk.
  destruct (m s) as [a s' | e s' |]; simpl in *; auto.
  apply Hk. exact Hm.
Qed.

Lemma lease_inv_acquire fuel release_interval timeout s :
  lease_inv s -> ends_in lease_inv (acquire fuel release_interval timeout s).
Proof.
  intros H. pose proof (acquire_post_holds fuel release_interval timeout s) as P.
  unfold ends_in.
  destruct (acquire fuel release_interval timeout s) as [[|] s' | e s' |] eqn:E;
    simpl in *; auto.
  - apply lease_inv_acquired. eapply acquire_true_acquired; eauto.
  - destruct P as (Hs & _). eapply lease_inv_self; eauto.
  - destruct P as (_ & (Hs & _) & _). eapply lease_inv_self; eauto.
Qed.

Lemma lease_inv_deco {A : Type} fuel release_interval timeout (func : M A) s :
  lease_inv s ->
  (forall s', lease_inv s' -> ends_in lease_inv (func s')) ->
  ends_in lease_inv (load_leveldb_deco fuel release_interval timeout func s).
Proof.
  intros H Hf. unfold load_leveldb_deco.
  apply ends_in_bind with (Q := lease_inv); auto.
  - now apply lease_inv_acquire.
  - intros [|] s' Hs'; [auto | exact Hs'].
Qed.

Lemma lease_inv_suspend_releaser fuel a timeout s :
  lease_inv s -> ends_in lease_inv (suspend_releaser fuel a timeout s).
Proof.
  intros H. unfold suspend_releaser.
  destruct (is_acquired s) eqn:Ha.
  { unfold ends_in; simpl. auto with lease. }
  destruct a; [| exact H].
  apply ends_in_bind with (Q := lease_inv); auto.
  now apply lease_inv_acquire.
Qed.

Lemma lease_inv_restart_releaser fuel release_interval a timeout s :
  lease_inv s -> ends_in lease_inv (restart_releaser fuel release_interval a timeout s).
Proof.
  intros H. unfold restart_releaser.
  destruct (is_acquired s) eqn:Ha.
  { unfold ends_in; simpl. auto with lease. }
  destruct a; [| exact H].
  apply ends_in_bind with (Q := lease_inv); auto.
  now apply lease_inv_acquire.
Qed.

Lemma lease_inv_wake s s' : wake 2 s = Some s' -> lease_inv s -> lease_inv s'.
Proof.
  intros Hw H. destruct (wake_cases s s' Hw) as [(th & ->) | (_ & th & ->)].
  - auto with lease.
  - unfold lease_inv. reflexivity.
Qed.

Lemma lease_inv_tick d s : lease_inv s -> lease_inv (tick d s).
Proof. auto. Qed.

Lemma lease_inv_join fuel : forall s, lease_inv s -> ends_in lease_inv (join fuel s).
Proof.
  induction fuel as [| fuel IH]; intros s H; [exact I |].
  cbn [join]. destruct (wake 2 s) as [s1 |] eqn:Hw; [| exact I].
  pose proof (lease_inv_wake _ _ Hw H) as H1.
  destruct (_auto_releaser (self s1)); try (apply IH; now apply lease_inv_tick).
  exact H1.
Qed.

Lemma lease_inv_close fuel s : lease_inv s -> ends_in lease_inv (close fuel s).
Proof.
  intros H. unfold close. apply lease_inv_join. apply lease_inv_release. exact H.
Qed.

Lemma lease_inv_batch_write b s :
  lease_inv s -> ends_in lease_inv (WriteBatch.write b s).
Proof.
  intros H. unfold WriteBatch.write.
  destruct (WriteBatch.handle_open b s); [| exact H].
  unfold ends_in; simpl. apply lease_inv_release. exact H.
Qed.

Lemma lease_inv_batch_exit b exc s :
  lease_inv s -> ends_in lease_inv (WriteBatch.__exit__ b exc s).
Proof.
  intros H. unfold WriteBatch.__exit__.
  destruct (WriteBatch.wb_transaction b) as [tr |]; [| exact H].
  destruct (tr && _); [exact H |].
  apply ends_in_bind with (Q := lease_inv); auto.
  now apply lease_inv_batch_write.
Qed.

Lemma lease_inv_iterator_close it s : lease_inv s -> lease_inv (snd (Iterator.close it s)).
Proof. intros H. simpl. now apply lease_inv_release. Qed.

Lemma lease_inv_acquire_spin fuel : forall s,
  lease_inv s -> ends_in lease_inv (Iterator.acquire_spin fuel s).
Proof.
  induction fuel as [| fuel IH]; intros s H; [exact I |].
  cbn [Iterator.acquire_spin].
  pose proof (lease_inv_acquire (S fuel) (Some INF_RELEASE_TIME) None s H) as P.
  destruct (acquire (S fuel) (Some INF_RELEASE_TIME) None s) as [[|] s1 | e s1 |];
    auto.
Qed.

Lemma lease_inv_yield_from it cur s :
  lease_inv s -> ends_in lease_inv (Iterator.yield_from it cur s).
Proof.
  intros H. destruct cur; [| exact H]. unfold ends_in; simpl. now apply lease_inv_release.
Qed.

Lemma lease_inv_next fuel it g s :
  lease_inv s -> ends_in lease_inv (Iterator.next fuel it g s).
Proof.
  intros H. destruct g as [| cur |]; cbn [Iterator.next].
  - assert (P : ends_in lease_inv
                  (if is_acquired s then suspend_releaser fuel true None s
                   else Iterator.acquire_spin fuel s)).
    { destruct (is_acquired s);
        [now apply lease_inv_suspend_releaser | now apply lease_inv_acquire_spin]. }
    destruct (if is_acquired s then suspend_releaser fuel true None s
              else Iterator.acquire_spin fuel s) as [[] s1 | e s1 |];
      unfold ends_in in P; simpl in P.
    + destruct (db s1).
      * now apply lease_inv_yield_from.
      * unfold ends_in; simpl. now apply lease_inv_release.
    + unfold ends_in; simpl. now apply lease_inv_release.
    + exact I.
  - now apply lease_inv_yield_from.
  - exact H.
Qed.

Lemma lease_inv_generator_close it g s :
  lease_inv s -> lease_inv (snd (Iterator.generator_close it g s)).
Proof.
  intros H. destruct g; simpl; auto. now apply lease_inv_release.
Qed.

Lemma lease_inv_del it s : lease_inv s -> lease_inv (snd (Iterator.__del__ it s)).
Proof.
  intros H. unfold Iterator.__del__. destruct (Iterator.iterator it); simpl; auto.
  now apply lease_inv_release.
Qed.

Lemma lease_inv_call fuel c s s' :
  lease_inv s -> run_call fuel c s = Some s' -> lease_inv s'.
Proof.
  intros H Hrun.
  assert (G : forall (A : Type) (r : Res A),
             ends_in lease_inv r -> final r = Some s' -> lease_inv s').
  { intros A r P E. unfold ends_in in P. now rewrite E in P. }
  destruct c; simpl in Hrun;
    try (inversion Hrun; subst; clear Hrun).
  - eapply G; [| eassumption]. now apply lease_inv_acquire.
  - now apply lease_inv_release.
  - eapply G; [| eassumption]. now apply lease_inv_suspend_releaser.
  - eapply G; [| eassumption]. now apply lease_inv_restart_releaser.
  - eapply G; [| eassumption]. now apply lease_inv_close.
  - eapply G; [| eassumption]. apply lease_inv_deco; [exact H |].
    intros s1 Hs1. destruct (db s1); exact Hs1.
  - eapply G; [| eassumption]. apply lease_inv_deco; [exact H |].
    intros s1 Hs1. destruct (db s1); exact Hs1.
  - eapply G; [| eassumption]. apply lease_inv_deco; [exact H |].
    intros s1 Hs1. destruct (db s1); exact Hs1.
  - eapply G; [| eassumption]. apply lease_inv_deco; [exact H |].
    intros s1 Hs1. exact Hs1.
  - eapply G; [| eassumption]. apply lease_inv_deco; [exact H |].
    intros s1 Hs1. unfold WriteBatch.__init__. destruct (db s1); exact Hs1.
  - eapply G; [| eassumption]. apply lease_inv_deco; [exact H |].
    intros s1 Hs1. exact Hs1.
  - eapply G; [| eassumption]. destruct exc; [exact H |].
    unfold ends_in; simpl. now apply lease_inv_release.
  - eapply G; [| eassumption]. now apply lease_inv_suspend_releaser.
  - eapply G; [| eassumption]. now apply lease_inv_batch_write.
  - first [assumption
          | eapply G; [| eassumption]; now apply lease_inv_batch_exit].
  - eapply G; [| eassumption]. now apply lease_inv_next.
  - now apply lease_inv_generator_close.
  - now apply lease_inv_release.
  - unfold Iterator.abandon. destruct g as [g |].
    + pose proof (lease_inv_generator_close it g s H) as P.
      destruct (Iterator.generator_close it g s) as [[it1 g1] s1].
      now apply lease_inv_del.
    + now apply lease_inv_del.
Qed.

Lemma lease_inv_setstate state u0 u w :
  __setstate__ state u0 = Some u -> lease_inv (mkState u w).
Proof.
  unfold __setstate__. intros H.
  destruct (foldl _ (Some u0) state) as [u1 |]; simpl in H; [| discriminate].
  inversion H; subst. unfold lease_inv. reflexivity.
Qed.

Lemma lease_inv_reachable s : reachable s -> lease_inv s.
Proof.
  induction 1 as [s Hi | s s' Hr IH Hs].
  - destruct Hi as [p a r t w | state u0 u w Hu].
    + unfold lease_inv. reflexivity.
    + eapply lease_inv_setstate; eauto.
  - destruct Hs as [s d Hd | s s' Hw | s s' fuel c Hc].
    + now apply lease_inv_tick.
    + eapply lease_inv_wake; eauto.
    + eapply lease_inv_call; eauto.
Qed.

(** C5.  In every reachable state the handle is present exactly when the
    deadline is not absent: a manager without a handle (at construction,
    after unpickling, after the maintenance loop closed it) holds no
    concrete deadline, only the sentinel, and a manager with a handle
    holds a deadline, concrete or indefinite. *)
Theorem handle_present_iff_deadline_not_absent :
  forall s, reachable s ->
    (is_acquired s = true <-> deadline_of (self s) <> Absent)
    /\ (_db (self s) = None -> _release_time (self s) = Inf)
    /\ (forall h, _db (self s) = Some h ->
          deadline_of (self s) = Indefinite
          \/ exists t, deadline_of (self s) = Concrete t).
Proof.
  intros s Hr. pose proof (lease_inv_reachable s Hr) as Hi.
  unfold lease_inv, is_acquired, deadline_of in *.
  destruct (_db (self s)) as [h |].
  - destruct (_release_time (self s)) as [| t].
    + split; [split; [discriminate | reflexivity] |].
      split; [discriminate | eauto].
    + split; [split; [discriminate | reflexivity] |].
      split; [discriminate | eauto].
  - rewrite (Hi eq_refl). split; [| split; [reflexivity | discriminate]].
    split; [discriminate | intros H; now contradict H].
Qed.

(** The invariant on a run: construct, schedule the thread, put, wait
    out the interval, schedule the thread again (the handle is closed). *)
Lemma handle_present_iff_deadline_not_absent_witness :
  exists s, reachable s
            /\ _db (self s) = None /\ closes (world s) = 1%nat
            /\ _release_time (self s) = Inf.
Proof.
  destruct (wake_total sample_init) as (s1 & H1).
  destruct (put 1 "a" "1" s1) as [[] s2 | e s2 |] eqn:H2;
    [| exfalso; revert H2; vm_compute in H1; inversion H1; subst; vm_compute; discriminate ..].
  destruct (wake_total (tick (5 * SECOND) s2)) as (s3 & H3).
  assert (R : reachable s3).
  { eapply reachable_step; [| apply step_wake; exact H3].
    eapply reachable_step; [| apply step_tick; vm_compute; discriminate].
    eapply reachable_step; [| apply (step_call _ s2 1%nat (Put "a" "1")); simpl; now rewrite H2].
    eapply reachable_step; [| apply step_wake; exact H1].
    apply reachable_initial. apply initial_init. }
  exists s3. split; [exact R |].
  destruct (handle_present_iff_deadline_not_absent s3 R) as (_ & Hnone & _).
  vm_compute in H1. inversion H1; subst. vm_compute in H2. inversion H2; subst.
  vm_compute in H3. inversion H3; subst.
  split; [reflexivity |]. split; [reflexivity |]. apply Hnone. reflexivity.
Defined.

(** ** Pickling *)

(** C9.  The pickled state has exactly the four configuration keys, is
    the same whatever the handle, deadline, closed flag and thread are,
    and [__setstate__] rebuilds from it, on any fresh object, the manager
    with these four values, no handle, the sentinel deadline, the closed
    flag down and a newly started thread. *)
Theorem pickled_state_is_configuration_only :
  (forall u,
      (__getstate__ u).*1
      = ["default_timeout"; "path"; "_auto_release_interval"; "_retry_interval"]%string)
  /\ (forall dt p a r c th h rt c' th' h' rt',
         __getstate__ (mkDBUnit dt c p a th h rt r)
         = __getstate__ (mkDBUnit dt c' p a th' h' rt' r))
  /\ (forall u u0,
         __setstate__ (__getstate__ u) u0
         = Some (mkDBUnit (default_timeout u) false (path u) (_auto_release_interval u)
                          Started None Inf (_retry_interval u))).
Proof.
  split; [reflexivity |]. split; [reflexivity |].
  intros u u0. reflexivity.
Qed.

(** ** Scoped use of the manager *)

Lemma release_from_Inf s :
  is_acquired s = true -> _release_time (self s) = Inf ->
  _release_time (self (release s)) = At (now s)
  /\ _db (self (release s)) = _db (self s).
Proof.
  intros Ha Hr. unfold release. rewrite Ha.
  split; [| apply _set_release_time_db].
  apply _set_release_time_applied. now rewrite Hr.
Qed.

(** An indefinite [acquire] that succeeds leaves the handle open and the
    deadline indefinite. *)
Lemma acquire_INF fuel timeout s s' :
  acquire fuel (Some INF_RELEASE_TIME) timeout s = Return true s' ->
  is_acquired s' = true /\ _release_time (self s') = Inf.
Proof.
  intros H. split; [eapply acquire_true_acquired; eauto |].
  pose proof (acquire_post_holds fuel (Some INF_RELEASE_TIME) timeout s) as P.
  rewrite H in P. simpl in P. destruct P as (s0 & s1 & _ & _ & ->).
  reflexivity.
Qed.

(** An exception out of [acquire] leaves the handle absent. *)
Lemma acquire_raise_not_acquired fuel release_interval timeout s e s' :
  acquire fuel release_interval timeout s = Raise e s' ->
  e = ValueError /\ _db (self s') = None /\ self s' = self s
  /\ store (world s') = store (world s).
Proof.
  intros E.
  pose proof (acquire_post_holds fuel release_interval timeout s) as P.
  rewrite E in P. simpl in P. destruct P as (He & (Hs & Hst & _) & _).
  split; [exact He |]. split; [| split; assumption].
  destruct fuel as [| fuel]; [discriminate |].
  unfold acquire in E. cbn [acquire_loop orb] in E.
  rewrite Hs. unfold is_acquired in E.
  destruct (_db (self s)); [discriminate | reflexivity].
Qed.

Lemma __enter___post fuel s :
  match __enter__ fuel s with
  | Return _ s1 => is_acquired s1 = true /\ _release_time (self s1) = Inf
  | Raise e s1 => _db (self s1) = None
  | OutOfFuel => True
  end.
Proof.
  unfold __enter__, load_leveldb_deco, bind.
  destruct (acquire fuel (Some INF_RELEASE_TIME) None s) as [[|] s1 | e s1 |] eqn:E;
    simpl; auto.
  - eapply acquire_INF; eauto.
  - eapply acquire_false_not_acquired; eauto.
  - eapply acquire_raise_not_acquired; eauto.
Qed.

(** While the deadline is indefinite the maintenance loop keeps the
    handle, whenever it is scheduled. *)
Lemma wake_keeps_indefinite s s' :
  _release_time (self s) = Inf -> wake 2 s = Some s' ->
  _db (self s') = _db (self s) /\ _release_time (self s') = Inf.
Proof.
  intros Hr Hw. destruct (wake_cases s s' Hw) as [(th & ->) | (Hp & _)].
  - simpl. auto.
  - apply _wait_predicate_false in Hp as (h & t & _ & Ht & _). congruence.
Qed.

(** C8 (as the code behaves).  A block that raises inside [with udb:]
    on the default manager: [__exit__] re-raises before it reaches
    [release()], so the exception comes out with the handle open and the
    deadline still indefinite, not at the instant of the exit, and the
    maintenance loop keeps the handle however late it runs. *)
Theorem udb_scope_keeps_lease_on_exception :
  exists s',
    with_udb 1 block_raises sample_init = Raise (UserError "boom") s'
    /\ _db (self s') = Some 0%nat
    /\ _release_time (self s') = Inf
    /\ _release_time (self s') <> At (now s')
    /\ forall d s'', wake 2 (tick d s') = Some s'' ->
                     _db (self s'') = Some 0%nat /\ _release_time (self s'') = Inf.
Proof.
  eexists. split; [vm_compute; reflexivity |].
  split; [reflexivity |]. split; [reflexivity |]. split; [discriminate |].
  intros d s'' Hw. apply wake_keeps_indefinite in Hw; [exact Hw | reflexivity].
Qed.

(** ** Scoped batches *)

(** Committing a batch: every key gets the last value buffered for it,
    the other keys keep theirs. *)
Lemma wb_write_lookup b m key :
  WriteBatch.wb_write b m !! key
  = match last_write key (WriteBatch.wb b) with
    | Some v => Some v
    | None => m !! key
    end.
Proof.
  unfold WriteBatch.wb_write, last_write.
  induction (WriteBatch.wb b) as [| [k v] buf IH] using rev_ind; [reflexivity |].
  rewrite !foldl_app. cbn [foldl fst snd].
  destruct (String.eqb_spec k key) as [-> | Hne].
  - now rewrite lookup_insert_eq.
  - rewrite lookup_insert_ne by exact Hne. exact IH.
Qed.

Lemma batch_put_last_write key value b :
  last_write key (WriteBatch.wb (WriteBatch.put key value b)) = Some value.
Proof.
  unfold last_write, WriteBatch.put. cbn [WriteBatch.wb].
  rewrite foldl_app. cbn [foldl fst snd]. now rewrite String.eqb_refl.
Qed.

(** What a [write()] that returns has done. *)
Lemma batch_write_returns b s :
  WriteBatch.handle_open b s = true ->
  WriteBatch.write b s
  = Return tt (release (on_world (set_store (WriteBatch.wb_write b (store (world s)))) s)).
Proof. intros H. unfold WriteBatch.write. now rewrite H. Qed.

Lemma batch_write_store b s r s' :
  WriteBatch.write b s = Return r s' ->
  WriteBatch.handle_open b s = true
  /\ store (world s') = WriteBatch.wb_write b (store (world s))
  /\ _db (self s') = _db (self s)
  /\ now s' = now s.
Proof.
  unfold WriteBatch.write. destruct (WriteBatch.handle_open b s); [| discriminate].
  intros H. inversion H; subst. split; [reflexivity |].
  unfold release.
  destruct (is_acquired _);
    rewrite ?_set_release_time_store, ?_set_release_time_db, ?_set_release_time_now;
    auto.
Qed.

(** C10 (as the code behaves).  The exit of a batch scope commits
    nothing and releases nothing, with or without an exception, for a
    transactional batch or not: the first line of [__exit__] reads
    [self.wb.transaction], which the engine's batch does not expose, and
    the [AttributeError] comes out before [write()] and [release()].  On
    the default manager, a batch that is not transactional, one buffered
    put and a block that raises: the store stays empty, the handle open
    and the deadline indefinite, however late the maintenance loop runs. *)
Theorem batch_scope_exit_raises_attribute_error :
  (forall b exc s, WriteBatch.__exit__ b exc s = Raise AttributeError s)
  /\ (exists s',
         with_write_batch 1 false false batch_block_raises sample_init
         = Raise AttributeError s'
         /\ store (world s') = ∅
         /\ _db (self s') = Some 0%nat
         /\ _release_time (self s') = Inf
         /\ forall d s'', wake 2 (tick d s') = Some s'' ->
                          _db (self s'') = Some 0%nat
                          /\ _release_time (self s'') = Inf).
Proof.
  split; [reflexivity |].
  eexists. split; [vm_compute; reflexivity |].
  split; [reflexivity |]. split; [reflexivity |]. split; [reflexivity |].
  intros d s'' Hw. apply wake_keeps_indefinite in Hw; [exact Hw | reflexivity].
Qed.

(** The exit paths on which the lease is given back: a started iterator
    that is exhausted, closed or collected, *)
Lemma iterator_started_releases fuel it cur s :
  Iterator.next fuel it (Iterator.Suspended []) s
  = Return (None, (Iterator.close it s).1, Iterator.Finished) (release s)
  /\ Iterator.generator_close it (Iterator.Suspended cur) s
     = ((Iterator.close it s).1, Iterator.Finished, release s)
  /\ (Iterator.abandon it (Some (Iterator.Suspended cur)) s).2 = release s.
Proof. repeat split. Qed.

(** and the first advance of an iterator over an empty store. *)
Lemma iterator_first_advance_empty fuel it s :
  is_acquired s = true -> store (world s) = ∅ ->
  exists it',
    Iterator.next fuel it (Iterator.__iter__ it) s
    = Return (None, it', Iterator.Finished)
             (release (_set_release_time (Number INF_RELEASE_TIME) s)).
Proof.
  intros Ha He. unfold Iterator.__iter__. cbn [Iterator.next].
  rewrite Ha. unfold suspend_releaser. rewrite Ha.
  unfold db. rewrite _set_release_time_db.
  unfold is_acquired in Ha. destruct (_db (self s)) eqn:Hd; [| discriminate].
  rewrite _set_release_time_store, He.
  unfold Iterator.db_iterator, Iterator.db_entries.
  rewrite map_to_list_empty. simpl. eauto.
Qed.

(** C1 (as the code behaves).  Two exit paths keep the indefinite lease.
    A transactional batch whose block raises never reaches [release()]:
    [__exit__] fails on its first line, reading [self.wb.transaction]
    (and the branch that line guards would [return] before [write()],
    the only place where the batch calls [release()]); the
    [AttributeError] comes out, the handle is open, the deadline
    indefinite, and the maintenance loop keeps the handle however late
    it runs.  An iterator made by [udb.iterator()], which acquires the
    indefinite lease, and dropped before its first advance releases
    nothing: [__del__] tests the cursor, which is attached by the first
    advance only, and a generator that never started runs no [finally]. *)
Theorem lease_kept_by_failed_transaction_and_unused_iterator :
  (exists s',
      with_write_batch 1 true false batch_block_raises sample_init
      = Raise AttributeError s'
      /\ _db (self s') = Some 0%nat
      /\ _release_time (self s') = Inf
      /\ store (world s') = ∅
      /\ forall d s'', wake 2 (tick d s') = Some s'' ->
                       _db (self s'') = Some 0%nat /\ _release_time (self s'') = Inf)
  /\ (exists it s1,
         iterator 1 true true sample_init = Return it s1
         /\ _db (self s1) = Some 0%nat
         /\ _release_time (self s1) = Inf
         /\ Iterator.abandon it None s1 = (it, s1)
         /\ Iterator.abandon it (Some (Iterator.__iter__ it)) s1 = (it, s1)
         /\ forall d s'', wake 2 (tick d s1) = Some s'' ->
                          _db (self s'') = Some 0%nat /\ _release_time (self s'') = Inf).
Proof.
  split.
  - eexists. split; [vm_compute; reflexivity |].
    split; [reflexivity |]. split; [reflexivity |]. split; [reflexivity |].
    intros d s'' Hw. apply wake_keeps_indefinite in Hw; [exact Hw | reflexivity].
  - do 2 eexists. split; [vm_compute; reflexivity |].
    split; [reflexivity |]. split; [reflexivity |].
    split; [reflexivity |]. split; [reflexivity |].
    intros d s'' Hw. apply wake_keeps_indefinite in Hw; [exact Hw | reflexivity].
Qed.

(** ** The facade: [get], [put], [delete] *)

Lemma facade_unfold fuel op s :
  facade fuel op s
  = match acquire fuel None None s with
    | Return true sa =>
        match db sa with
        | Some _ =>
            let (m, v) := engine_effect op (store (world sa)) in
            Return v (on_world (set_store m) sa)
        | None =>
            match op with
            | FGet _ d => Return d sa
            | _ => Raise AttributeError sa
            end
        end
    | Return false sa => Raise LevelDBAcquisitionFailure sa
    | Raise e sa => Raise e sa
    | OutOfFuel => OutOfFuel
    end.
Proof.
  destruct op; unfold facade, get, put, delete_, load_leveldb_deco, bind, raise, ret;
    destruct (acquire fuel None None s) as [[|] [u w] | e sa |]; try reflexivity;
    unfold db; simpl; destruct (_db u); try reflexivity.
  destruct w; reflexivity.
Qed.

(** The deadline after an [acquire] with the default interval. *)
Lemma acquire_default_interval fuel timeout s s' :
  0 <= _auto_release_interval (self s) ->
  acquire fuel None timeout s = Return true s' ->
  is_acquired s' = true
  /\ store (world s') = store (world s)
  /\ _release_time (self s')
     = (let t := now s' + _auto_release_interval (self s) in
        if release_time_differs (_release_time (self s)) t
        then At t else _release_time (self s)).
Proof.
  intros Hauto H. split; [eapply acquire_true_acquired; eauto |].
  pose proof (acquire_post_holds fuel None timeout s) as P.
  rewrite H in P. cbn [acquire_post py_or] in P.
  destruct P as (s0 & s1 & (Hs0 & Hst0 & _) & Hcase & ->).
  assert (Hne : _auto_release_interval (self s) <> INF_RELEASE_TIME).
  { unfold INF_RELEASE_TIME, SECOND. lia. }
  assert (H1 : _release_time (self s1) = _release_time (self s)
               /\ store (world s1) = store (world s)).
  { destruct Hcase as [[-> _] | (_ & Hs1 & _ & Hst1 & _)].
    - now rewrite Hs0, Hst0.
    - rewrite Hs1, Hst1, Hst0. simpl. now rewrite Hs0. }
  destruct H1 as (Hrt & Hst).
  rewrite _set_release_time_store, _set_release_time_now.
  split; [exact Hst |].
  rewrite _set_release_time_number by exact Hne.
  rewrite Z.max_r by exact Hauto.
  cbv zeta. rewrite (Z.add_comm (now s1)).
  unfold _set_release_time at 1. rewrite Hrt.
  destruct (release_time_differs _ _); simpl; [reflexivity | exact Hrt].
Qed.

(** C7 (refuted as stated).  [put] on the default manager puts the
    deadline 5 s ahead; a [get] 50 ms later returns the value and leaves
    the deadline where it was, not at 5 s after the call. *)
Lemma get_does_not_always_extend_deadline :
  exists s1 s2,
    put 1 "a" "1" sample_init = Return tt s1
    /\ _release_time (self s1) = At (now s1 + _auto_release_interval (self s1))
    /\ get 1 "a" None (tick 50000 s1) = Return (Some "1"%string) s2
    /\ now s2 = now s1 + 50000
    /\ _release_time (self s2) = _release_time (self s1)
    /\ _release_time (self s2) <> At (now s2 + _auto_release_interval (self s2)).
Proof.
  do 2 eexists.
  split; [vm_compute; reflexivity |].
  split; [reflexivity |].
  split; [vm_compute; reflexivity |].
  repeat split. vm_compute. discriminate.
Qed.

(** C7 (amended).  Each of [get], [put], [delete] is [acquire] with the
    default interval and timeout followed, on success, by the engine
    call.  If the acquisition fails the call raises
    [LevelDBAcquisitionFailure], with no handle, the store as it was and
    no engine handle opened.  If it succeeds, the handle is open, the
    engine call has its effect, and the deadline [now + auto_release_interval]
    has been requested: it is the deadline if the deadline was indefinite
    (or the handle was just opened) or at least a second (and less than a
    day) away from it, and the deadline is unchanged if the request is
    within 100 ms of it.  With a positive retry interval the call returns
    or raises. *)
Theorem facade_acquires_before_delegating :
  forall fuel op s,
    0 <= _auto_release_interval (self s) ->
    match facade fuel op s with
    | Return v s' =>
        (exists sa, acquire fuel None None s = Return true sa
                    /\ self s' = self sa /\ now s' = now sa)
        /\ is_acquired s' = true
        /\ (store (world s'), v) = engine_effect op (store (world s))
        /\ let t := now s' + _auto_release_interval (self s) in
           (_release_time (self s) = Inf -> _release_time (self s') = At t)
           /\ (forall c, _release_time (self s) = At c ->
                         SECOND <= Z.abs (t - c) < DAY ->
                         _release_time (self s') = At t)
           /\ (forall c, _release_time (self s) = At c ->
                         Z.abs (t - c) <= POLL ->
                         _release_time (self s') = At c)
    | Raise e s' =>
        _db (self s') = None
        /\ store (world s') = store (world s)
        /\ opens (world s') = opens (world s)
        /\ ((e = LevelDBAcquisitionFailure
             /\ acquire fuel None None s = Return false s')
            \/ (e = ValueError /\ _retry_interval (self s) < 0))
    | OutOfFuel => acquire fuel None None s = OutOfFuel
    end
    /\ (0 < _retry_interval (self s) ->
        exists n, forall fuel', (n <= fuel')%nat -> facade fuel' op s <> OutOfFuel).
Proof.
  intros fuel op s Hauto. split.
  - rewrite facade_unfold.
    pose proof (acquire_post_holds fuel None None s) as P.
    destruct (acquire fuel None None s) as [[|] sa | e sa |] eqn:E.
    + destruct (acquire_default_interval _ _ _ _ Hauto E) as (Ha & Hst & Hrt).
      unfold db. unfold is_acquired in Ha.
      destruct (_db (self sa)) as [h |] eqn:Hdb; [| discriminate].
      destruct (engine_effect op (store (world sa))) as [m v] eqn:Ee.
      split; [exists sa; auto |].
      split; [unfold is_acquired; simpl; now rewrite Hdb |].
      split; [simpl; now rewrite <- Hst, Ee |].
      change (now (on_world (set_store m) sa)) with (now sa).
      change (self (on_world (set_store m) sa)) with (self sa).
      cbv zeta in *. rewrite Hrt. split; [| split].
      * intros ->. reflexivity.
      * intros c -> Hd. now rewrite release_time_differs_far.
      * intros c -> Hd. rewrite release_time_differs_near; [reflexivity |].
        unfold POLL, SECOND in *. lia.
    + destruct (acquire_false_not_acquired _ _ _ _ _ E) as (_ & Hdb).
      simpl in P. destruct P as (_ & Hst & Ho & _).
      split; [exact Hdb |]. split; [exact Hst |]. split; [exact Ho |].
      left. auto.
    + destruct (acquire_raise_not_acquired _ _ _ _ _ _ E) as (-> & Hdb & _ & Hst).
      simpl in P. destruct P as (_ & (_ & _ & Ho & _) & Hneg).
      split; [exact Hdb |]. split; [exact Hst |]. split; [exact Ho |].
      right. auto.
    + reflexivity.
  - intros Hr. destruct (acquire_terminates None None s Hr) as (n & Hn).
    exists n. intros fuel' Hle. specialize (Hn fuel' Hle).
    rewrite facade_unfold.
    destruct (acquire fuel' None None s) as [[|] sa | e sa |];
      [| discriminate | discriminate | now contradict Hn].
    destruct (db sa); [| destruct op; discriminate].
    destruct (engine_effect op (store (world sa))). discriminate.
Qed.

(** [put("a", "1")] on the default manager: the handle is opened, the
    value stored and the deadline put 5 s ahead. *)
Lemma facade_acquires_before_delegating_witness :
  exists s', facade 1 (FPut "a" "1") sample_init = Return None s'
             /\ store (world s') !! "a" = Some "1"%string
             /\ _release_time (self s') = At (now s' + 5 * SECOND).
Proof.
  assert (Hauto : 0 <= _auto_release_interval (self sample_init))
    by (vm_compute; discriminate).
  destruct (facade_acquires_before_delegating 1 (FPut "a" "1") sample_init Hauto)
    as (H & _).
  destruct (facade 1 (FPut "a" "1") sample_init) as [v s' | e s' |] eqn:E;
    [| exfalso; revert E; vm_compute; discriminate ..].
  destruct H as (_ & _ & Heff & Hinf & _).
  exists s'. inversion Heff as [[Hst Hv]].
  split; [reflexivity |].
  split; [rewrite Hst; apply lookup_insert_eq |].
  apply Hinf. reflexivity.
Defined.

(** * Further properties of the code *)

(** ** What no step changes *)

Section Preservation.

Variable P : State -> Prop.

Hypothesis P_set_release_time : forall v s, P s -> P (_set_release_time v s).
Hypothesis P_waited : forall s s', waited s s' -> P s -> P s'.
Hypothesis P_opened : forall s s', opened s s' -> P s -> P s'.
Hypothesis P_store : forall m s, P s -> P (on_world (set_store m) s).
Hypothesis P_tick : forall d s, 0 <= d -> P s -> P (tick d s).
Hypothesis P_wake : forall s s', wake 2 s = Some s' -> P s -> P s'.
Hypothesis P_closed : forall s, P s -> P (on_self (set_is_closed true) s).

Lemma preserved_release s : P s -> P (release s).
Proof. intros H. unfold release. destruct (is_acquired s); auto. Qed.

Lemma preserved_acquire fuel release_interval timeout s :
  P s -> ends_in P (acquire fuel release_interval timeout s).
Proof.
  intros H. pose proof (acquire_post_holds fuel release_interval timeout s) as Q.
  unfold ends_in.
  destruct (acquire fuel release_interval timeout s) as [[|] s' | e s' |];
    simpl in *; auto.
  - destruct Q as (s0 & s1 & Hw & [[-> _] | Ho] & ->); eauto.
  - eauto.
  - destruct Q as (_ & Hw & _). eauto.
Qed.

Lemma preserved_deco {A : Type} fuel release_interval timeout (func : M A) s :
  P s -> (forall s', P s' -> ends_in P (func s')) ->
  ends_in P (load_leveldb_deco fuel release_interval timeout func s).
Proof.
  intros H Hf. unfold load_leveldb_deco.
  apply ends_in_bind with (Q := P); auto.
  - now apply preserved_acquire.
  - intros [|] s' Hs'; [auto | exact Hs'].
Qed.

Lemma preserved_suspend_releaser fuel a timeout s :
  P s -> ends_in P (suspend_releaser fuel a timeout s).
Proof.
  intros H. unfold suspend_releaser.
  destruct (is_acquired s); [unfold ends_in; simpl; auto |].
  destruct a; [| exact H].
  apply ends_in_bind with (Q := P); auto. now apply preserved_acquire.
Qed.

Lemma preserved_restart_releaser fuel release_interval a timeout s :
  P s -> ends_in P (restart_releaser fuel release_interval a timeout s).
Proof.
  intros H. unfold restart_releaser.
  destruct (is_acquired s); [unfold ends_in; simpl; auto |].
  destruct a; [| exact H].
  apply ends_in_bind with (Q := P); auto. now apply preserved_acquire.
Qed.

Lemma preserved_join fuel : forall s, P s -> ends_in P (join fuel s).
Proof.
  induction fuel as [| fuel IH]; intros s H; [exact I |].
  cbn [join]. destruct (wake 2 s) as [s1 |] eqn:Hw; [| exact I].
  pose proof (P_wake _ _ Hw H) as H1.
  assert (0 <= POLL) by (unfold POLL; lia).
  destruct (_auto_releaser (self s1)); try (apply IH; now apply P_tick).
  exact H1.
Qed.

Lemma preserved_close fuel s : P s -> ends_in P (close fuel s).
Proof.
  intros H. unfold close. apply preserved_join. apply preserved_release.
  now apply P_closed.
Qed.

Lemma preserved_batch_write b s : P s -> ends_in P (WriteBatch.write b s).
Proof.
  intros H. unfold WriteBatch.write.
  destruct (WriteBatch.handle_open b s); [| exact H].
  unfold ends_in; simpl. apply preserved_release.
  change (P (on_world (set_store (WriteBatch.wb_write b (store (world s)))) s)).
  now apply P_store.
Qed.

Lemma preserved_batch_exit b exc s : P s -> ends_in P (WriteBatch.__exit__ b exc s).
Proof.
  intros H. unfold WriteBatch.__exit__.
  destruct (WriteBatch.wb_transaction b) as [tr |]; [| exact H].
  destruct (tr && _); [exact H |].
  apply ends_in_bind with (Q := P); auto.
  now apply preserved_batch_write.
Qed.

Lemma preserved_acquire_spin fuel : forall s,
  P s -> ends_in P (Iterator.acquire_spin fuel s).
Proof.
  induction fuel as [| fuel IH]; intros s H; [exact I |].
  cbn [Iterator.acquire_spin].
  pose proof (preserved_acquire (S fuel) (Some INF_RELEASE_TIME) None s H) as Q.
  destruct (acquire (S fuel) (Some INF_RELEASE_TIME) None s) as [[|] s1 | e s1 |];
    auto.
Qed.

Lemma preserved_yield_from it cur s :
  P s -> ends_in P (Iterator.yield_from it cur s).
Proof.
  intros H. destruct cur; [| exact H]. unfold ends_in; simpl.
  now apply preserved_release.
Qed.

Lemma preserved_next fuel it g s : P s -> ends_in P (Iterator.next fuel it g s).
Proof.
  intros H. destruct g as [| cur |]; cbn [Iterator.next].
  - assert (Q : ends_in P
                  (if is_acquired s then suspend_releaser fuel true None s
                   else Iterator.acquire_spin fuel s)).
    { destruct (is_acquired s);
        [now apply preserved_suspend_releaser | now apply preserved_acquire_spin]. }
    destruct (if is_acquired s then suspend_releaser fuel true None s
              else Iterator.acquire_spin fuel s) as [[] s1 | e s1 |];
      unfold ends_in in Q; simpl in Q.
    + destruct (db s1).
      * now apply preserved_yield_from.
      * unfold ends_in; simpl. now apply preserved_release.
    + unfold ends_in; simpl. now apply preserved_release.
    + exact I.
  - now apply preserved_yield_from.
  - exact H.
Qed.

Lemma preserved_generator_close it g s :
  P s -> P (snd (Iterator.generator_close it g s)).
Proof. intros H. destruct g; simpl; auto. now apply preserved_release. Qed.

Lemma preserved_del it s : P s -> P (snd (Iterator.__del__ it s)).
Proof.
  intros H. unfold Iterator.__del__. destruct (Iterator.iterator it); simpl; auto.
  now apply preserved_release.
Qed.

Lemma preserved_call fuel c s s' : P s -> run_call fuel c s = Some s' -> P s'.
Proof.
  intros H Hrun.
  assert (G : forall (A : Type) (r : Res A),
             ends_in P r -> final r = Some s' -> P s').
  { intros A r Q E. unfold ends_in in Q. now rewrite E in Q. }
  destruct c; simpl in Hrun.
  - eapply G; [| eassumption]. now apply preserved_acquire.
  - inversion Hrun; subst. now apply preserved_release.
  - eapply G; [| eassumption]. now apply preserved_suspend_releaser.
  - eapply G; [| eassumption]. now apply preserved_restart_releaser.
  - eapply G; [| eassumption]. now apply preserved_close.
  - eapply G; [| eassumption]. apply preserved_deco; [exact H |].
    intros s1 Hs1. destruct (db s1); exact Hs1.
  - eapply G; [| eassumption]. apply preserved_deco; [exact H |].
    intros s1 Hs1. destruct (db s1); [| exact Hs1].
    change (P (on_world (set_store (<[key := value]> (store (world s1)))) s1)).
    now apply P_store.
  - eapply G; [| eassumption]. apply preserved_deco; [exact H |].
    intros s1 Hs1. destruct (db s1); [| exact Hs1].
    change (P (on_world (set_store (base.delete key (store (world s1)))) s1)).
    now apply P_store.
  - eapply G; [| eassumption]. apply preserved_deco; [exact H |].
    intros s1 Hs1. exact Hs1.
  - eapply G; [| eassumption]. apply preserved_deco; [exact H |].
    intros s1 Hs1. unfold WriteBatch.__init__. destruct (db s1); exact Hs1.
  - eapply G; [| eassumption]. apply preserved_deco; [exact H |].
    intros s1 Hs1. exact Hs1.
  - eapply G; [| eassumption]. destruct exc; [exact H |].
    unfold ends_in; simpl. now apply preserved_release.
  - eapply G; [| eassumption]. now apply preserved_suspend_releaser.
  - eapply G; [| eassumption]. now apply preserved_batch_write.
  - first [eapply G; [| eassumption]; now apply preserved_batch_exit
          | inversion Hrun; subst; assumption].
  - eapply G; [| eassumption]. now apply preserved_next.
  - inversion Hrun; subst. now apply preserved_generator_close.
  - inversion Hrun; subst. now apply preserved_release.
  - inversion Hrun; subst. unfold Iterator.abandon. destruct g as [g |].
    + pose proof (preserved_generator_close it g s H) as Q.
      destruct (Iterator.generator_close it g s) as [[it1 g1] s1].
      now apply preserved_del.
    + now apply preserved_del.
Qed.

Lemma preserved_step s s' : step s s' -> P s -> P s'.
Proof.
  intros Hs H. destruct Hs as [s d Hd | s s' Hw | s s' fuel c Hc].
  - now apply P_tick.
  - eapply P_wake; eauto.
  - eapply preserved_call; eauto.
Qed.

Lemma preserved_steps s s' : steps s s' -> P s -> P s'.
Proof.
  induction 1 as [s | s s1 s' Hs _ IH]; intros H; [exact H |].
  apply IH. eapply preserved_step; eauto.
Qed.

End Preservation.

Lemma _set_release_time_closes v s :
  closes (world (_set_release_time v s)) = closes (world s).
Proof. apply (_set_release_time_frame v s). Qed.

Lemma _set_release_time_config v s :
  config (self (_set_release_time v s)) = config (self s).
Proof.
  destruct (_set_release_time_frame v s)
    as (_ & _ & _ & H1 & H2 & H3 & H4 & _).
  unfold config. now rewrite H1, H2, H3, H4.
Qed.

Lemma _set_release_time_thread v s :
  _auto_releaser (self (_set_release_time v s)) = _auto_releaser (self s)
  /\ is_closed (self (_set_release_time v s)) = is_closed (self s).
Proof. destruct (_set_release_time_frame v s) as (_ & H1 & H2 & _). auto. Qed.

(** X1.  No step changes the configuration: the path, the two intervals
    and the default timeout of a manager are those it was built with,
    whatever is called on it and however long it lives. *)
Theorem configuration_is_immutable :
  forall s s', steps s s' -> config (self s') = config (self s).
Proof.
  intros s s' Hs.
  apply (preserved_steps (fun x => config (self x) = config (self s))) with (s := s);
    try exact Hs; try reflexivity.
  - intros v x H. now rewrite _set_release_time_config.
  - intros x x' (Hself & _) H. now rewrite Hself.
  - intros x x' (_ & Hself & _) H. now rewrite Hself.
  - intros m x H. exact H.
  - intros d x _ H. exact H.
  - intros x x' Hw H.
    destruct (wake_cases x x' Hw) as [(th & ->) | (_ & th & ->)]; exact H.
  - intros x H. exact H.
Qed.

(** A put, five seconds of silence and the thread's wake-up. *)
Lemma configuration_is_immutable_witness :
  exists s', steps sample_init s' /\ _db (self s') = None
             /\ closes (world s') = 1%nat
             /\ config (self s') = (5 * SECOND, "db"%string, 5 * SECOND, POLL).
Proof.
  destruct (wake_total sample_init) as (s1 & H1).
  destruct (put 1 "a" "1" s1) as [[] s2 | e s2 |] eqn:H2;
    [| exfalso; revert H2; vm_compute in H1; inversion H1; subst; vm_compute; discriminate ..].
  destruct (wake_total (tick (5 * SECOND) s2)) as (s3 & H3).
  assert (R : steps sample_init s3).
  { eapply steps_step; [apply step_wake; exact H1 |].
    eapply steps_step;
      [apply (step_call _ s2 1%nat (Put "a" "1")); unfold run_call; rewrite H2; reflexivity |].
    eapply steps_step; [apply (step_tick _ (5 * SECOND)); vm_compute; discriminate |].
    eapply steps_step; [apply step_wake; exact H3 |].
    apply steps_refl. }
  exists s3. split; [exact R |].
  rewrite (configuration_is_immutable sample_init s3 R).
  vm_compute in H1. inversion H1; subst. vm_compute in H2. inversion H2; subst.
  vm_compute in H3. inversion H3; subst.
  repeat split.
Defined.

Lemma balance_preserved b s s' :
  steps s s' -> balance s = b -> balance s' = b.
Proof.
  intros Hs.
  apply (preserved_steps (fun x => balance x = b)) with (s := s); try exact Hs.
  - intros v x H. unfold balance in *.
    now rewrite is_acquired_set_release_time, _set_release_time_opens,
      _set_release_time_closes.
  - intros x x' (Hself & _ & Ho & Hc & _) H. unfold balance, is_acquired in *.
    now rewrite Hself, Ho, Hc.
  - intros x x' (Hdb & Hself & Ho & _ & Hc & _) H. unfold balance, is_acquired in *.
    rewrite Hself, Ho, Hc. simpl. rewrite Hdb in H. lia.
  - intros m x H. exact H.
  - intros d x _ H. exact H.
  - intros x x' Hw H.
    destruct (wake_cases x x' Hw) as [(th & ->) | (Hp & th & ->)]; [exact H |].
    apply _wait_predicate_false in Hp as (h & t & Hdb & _).
    unfold balance, is_acquired in *. simpl. rewrite Hdb in H. lia.
  - intros x H. exact H.
Qed.

(** X2.  One handle at a time.  On an engine whose earlier handles were
    all closed, a manager built by [__init__] has, after any steps,
    exactly one engine handle open while [is_acquired] holds and none
    otherwise: no call opens a second handle beside the one held, and no
    handle is dropped without being closed. *)
Theorem one_engine_handle_at_a_time :
  forall p a r t w s',
    opens w = closes w ->
    steps (__init__ p a r t w) s' ->
    Z.of_nat (opens (world s')) - Z.of_nat (closes (world s'))
    = if is_acquired s' then 1 else 0.
Proof.
  intros p a r t w s' Hw Hs.
  pose proof (balance_preserved 0 _ _ Hs) as H.
  unfold balance in H at 2. simpl in H.
  assert (E : balance (__init__ p a r t w) = 0).
  { unfold balance. simpl. rewrite Hw. lia. }
  specialize (H E). unfold balance in H. lia.
Qed.

(** On the default manager: two puts 50 ms apart open one handle. *)
Lemma one_engine_handle_at_a_time_witness :
  exists s', steps sample_init s' /\ is_acquired s' = true
             /\ opens (world s') = 1%nat /\ closes (world s') = 0%nat.
Proof.
  destruct (put 1 "a" "1" sample_init) as [[] s1 | e s1 |] eqn:H1;
    [| exfalso; revert H1; vm_compute; discriminate ..].
  destruct (put 1 "b" "2" (tick 50000 s1)) as [[] s2 | e s2 |] eqn:H2;
    [| exfalso; revert H2; vm_compute in H1; inversion H1; subst; vm_compute; discriminate ..].
  assert (R : steps sample_init s2).
  { eapply steps_step;
      [apply (step_call _ s1 1%nat (Put "a" "1")); unfold run_call; rewrite H1; reflexivity |].
    eapply steps_step; [apply (step_tick _ 50000); vm_compute; discriminate |].
    eapply steps_step;
      [apply (step_call _ s2 1%nat (Put "b" "2")); unfold run_call; rewrite H2; reflexivity |].
    apply steps_refl. }
  exists s2. split; [exact R |].
  pose proof (one_engine_handle_at_a_time "db" (5 * SECOND) POLL (5 * SECOND)
                sample_world s2 eq_refl R) as H.
  vm_compute in H1. inversion H1; subst. vm_compute in H2. inversion H2; subst.
  repeat split.
Defined.

(** X3.  Nothing revives a closed manager, and nothing closes its
    handles.  Once the maintenance thread has exited (which [close()]
    waits for), no step starts it again, no engine handle is closed any
    more, and a handle the manager holds or opens later is held for ever;
    the closed flag, once set, is never reset. *)
Theorem exited_thread_never_closes_handle :
  forall s s',
    _auto_releaser (self s) = Exited ->
    steps s s' ->
    _auto_releaser (self s') = Exited
    /\ closes (world s') = closes (world s)
    /\ (is_acquired s = true -> _db (self s') = _db (self s))
    /\ (is_closed (self s) = true -> is_closed (self s') = true).
Proof.
  intros s s' Hth Hs.
  pose proof (preserved_steps
                (fun x => _auto_releaser (self x) = Exited
                          /\ closes (world x) = closes (world s)
                          /\ (is_acquired s = true -> _db (self x) = _db (self s))
                          /\ (is_closed (self s) = true -> is_closed (self x) = true)))
    as G.
  apply G with (s := s); try exact Hs; clear G; [| | | | | | | auto].
  - intros v x (H1 & H2 & H3 & H4).
    destruct (_set_release_time_thread v x) as (E1 & E2).
    rewrite E1, E2, _set_release_time_closes, _set_release_time_db. auto.
  - intros x x' (Hself & _ & _ & Hc & _) (H1 & H2 & H3 & H4).
    rewrite Hself, Hc. auto.
  - intros x x' (Hdb & Hself & _ & _ & Hc & _) (H1 & H2 & H3 & H4).
    rewrite Hself, Hc. simpl. repeat split; auto.
    intros Ha. specialize (H3 Ha). unfold is_acquired in Ha.
    rewrite <- H3, Hdb in Ha. discriminate.
  - intros m x H. exact H.
  - intros d x _ H. exact H.
  - intros x x' Hw (H1 & H2 & H3 & H4).
    unfold wake in Hw. rewrite H1 in Hw. inversion Hw; subst. auto.
  - intros x (H1 & H2 & H3 & H4). simpl. auto.
Qed.

(** A closed manager that holds a reopened handle, and an hour of
    silence: the handle stays open. *)
Lemma exited_thread_never_closes_handle_witness :
  exists s s',
    _auto_releaser (self s) = Exited /\ _db (self s) = Some 1%nat
    /\ wake 2 (tick (3600 * SECOND) s) = Some s'
    /\ _db (self s') = Some 1%nat.
Proof.
  set (s := mkState (mkDBUnit (5 * SECOND) true "db" (5 * SECOND) Exited
                              (Some 1%nat) (At (5 * SECOND)) POLL)
                    (mkWorld 0 ∅ [] false 2 1 3)).
  destruct (wake_total (tick (3600 * SECOND) s)) as (s' & Hw).
  exists s, s'. split; [reflexivity |]. split; [reflexivity |].
  split; [exact Hw |].
  assert (R : steps s s').
  { eapply steps_step; [apply (step_tick _ (3600 * SECOND)); vm_compute; discriminate |].
    eapply steps_step; [apply step_wake; exact Hw |]. apply steps_refl. }
  destruct (exited_thread_never_closes_handle s s' eq_refl R) as (_ & _ & H & _).
  rewrite (H eq_refl). reflexivity.
Defined.

(** ** Timeouts of [acquire] *)

Lemma acquire_loop_false_limit fuel : forall first_flag limit release_interval s s',
  acquire_loop fuel first_flag limit release_interval s = Return false s' ->
  limit <= now s'.
Proof.
  induction fuel as [| fuel IH]; intros ff tl ri s s'; [discriminate |].
  cbn [acquire_loop].
  destruct ff; cbn [orb].
  - destruct (is_acquired s); [discriminate |].
    destruct (_plyvel_db_factory s) as [[h |] s1]; [discriminate |].
    destruct (sleep _ s1) as [s2 |]; [apply IH | discriminate].
  - destruct (now s <? tl) eqn:E.
    + destruct (is_acquired s); [discriminate |].
      destruct (_plyvel_db_factory s) as [[h |] s1]; [discriminate |].
      destruct (sleep _ s1) as [s2 |]; [apply IH | discriminate].
    + intros H. inversion H; subst. now apply Z.ltb_ge in E.
Qed.

Lemma acquire_loop_true_limit fuel : forall first_flag limit release_interval s s',
  acquire_loop fuel first_flag limit release_interval s = Return true s' ->
  (first_flag = true /\ now s' = now s) \/ now s' < limit.
Proof.
  induction fuel as [| fuel IH]; intros ff tl ri s s'; [discriminate |].
  cbn [acquire_loop].
  destruct (ff || (now s <? tl)) eqn:Hc; [| discriminate].
  assert (Hhere : forall x, now x = now s ->
                            (ff = true /\ now x = now s) \/ now x < tl).
  { intros x Hx. destruct ff; [left; auto |].
    right. cbn [orb] in Hc. apply Z.ltb_lt in Hc. lia. }
  destruct (is_acquired s).
  { intros H. inversion H; subst. apply Hhere. apply _set_release_time_now. }
  destruct (_plyvel_db_factory s) as [[h |] s1] eqn:Hf.
  - intros H. inversion H; subst. apply Hhere.
    rewrite _set_release_time_now.
    apply factory_open in Hf as (_ & _ & _ & _ & _ & _ & Hnow). exact Hnow.
  - destruct (sleep _ s1) as [s2 |]; [| discriminate].
    intros H. apply IH in H as [(Hff & _) | H]; [discriminate | right; exact H].
Qed.

(** The two ways out of the retry loop, against the time limit. *)
Lemma acquire_time_limit :
  forall fuel release_interval timeout s b s',
    acquire fuel release_interval timeout s = Return b s' ->
    if b then
      is_acquired s' = true
      /\ (now s' = now s \/ now s' < time_limit timeout s)
    else
      time_limit timeout s <= now s'
      /\ self s' = self s /\ _db (self s') = None
      /\ opens (world s') = opens (world s)
      /\ store (world s') = store (world s).
Proof.
  intros fuel ri to s b s' H. destruct b.
  - split; [eapply acquire_true_acquired; eauto |].
    unfold acquire in H. apply acquire_loop_true_limit in H as [(_ & H) | H]; auto.
  - pose proof (acquire_post_holds fuel ri to s) as P. rewrite H in P.
    destruct P as (Hself & Hst & Ho & _).
    destruct (acquire_false_not_acquired _ _ _ _ _ H) as (_ & Hdb).
    unfold acquire in H. apply acquire_loop_false_limit in H.
    repeat split; assumption.
Qed.

(** X4.  [acquire] keeps to its time limit.  It returns [False] only
    once the clock has reached [now + max(timeout or default_timeout, 0)],
    with the manager as it was, no handle and no engine handle opened; it
    returns [True] only from the first attempt or from an attempt made
    before that instant, and then the handle is open. *)
Theorem acquire_respects_time_limit :
  forall fuel release_interval timeout s b s',
    acquire fuel release_interval timeout s = Return b s' ->
    if b then
      is_acquired s' = true
      /\ (now s' = now s \/ now s' < time_limit timeout s)
    else
      time_limit timeout s <= now s'
      /\ self s' = self s /\ _db (self s') = None
      /\ opens (world s') = opens (world s)
      /\ store (world s') = store (world s).
Proof. exact acquire_time_limit. Qed.

(** The store held by another process for two seconds, [timeout=1]. *)
Lemma acquire_respects_time_limit_witness :
  exists s', acquire 20 None (Some SECOND) (sample_contended 20) = Return false s'
             /\ now (sample_contended 20) + SECOND <= now s'
             /\ _db (self s') = None.
Proof.
  destruct (acquire 20 None (Some SECOND) (sample_contended 20))
    as [[|] s' | e s' |] eqn:E;
    try (exfalso; revert E; vm_compute; discriminate).
  exists s'. split; [reflexivity |].
  pose proof (acquire_respects_time_limit _ _ _ _ _ _ E) as (H1 & _ & H2 & _).
  split; [exact H1 | exact H2].
Defined.

(** X5.  A negative timeout is clamped to zero and gives exactly one
    attempt to open the store: if that attempt fails, [acquire] sleeps
    one retry interval all the same and then returns [False], without a
    second attempt. *)
Theorem acquire_negative_timeout_one_attempt :
  forall fuel release_interval timeout s s1,
    timeout < 0 ->
    0 <= _retry_interval (self s) ->
    is_acquired s = false ->
    _plyvel_db_factory s = (None, s1) ->
    acquire (S (S fuel)) release_interval (Some timeout) s
    = Return false (tick (_retry_interval (self s)) s1).
Proof.
  intros fuel ri to s s1 Hto Hr Ha Hf.
  unfold acquire. remember (S fuel) as n. cbn [acquire_loop orb].
  rewrite Ha, Hf.
  apply factory_busy in Hf as (Hself & _ & Hnow).
  rewrite Hself. unfold sleep.
  destruct (Z.ltb_spec (_retry_interval (self s)) 0); [lia |].
  subst n. cbn [acquire_loop orb].
  assert (E : (now (tick (_retry_interval (self s)) s1)
               <? now s + Z.max (py_or (Some to) (default_timeout (self s))) 0) = false).
  { apply Z.ltb_ge. unfold tick, now in *. simpl. rewrite Hnow.
    unfold py_or. destruct (Z.eqb_spec to 0); lia. }
  now rewrite E.
Qed.

(** [acquire(timeout=-1)] on the store held for five opens. *)
Lemma acquire_negative_timeout_one_attempt_witness :
  exists s', acquire 2 None (Some (- SECOND)) (sample_contended 5) = Return false s'
             /\ busy (world s') = repeat true 4
             /\ now s' = now (sample_contended 5) + POLL.
Proof.
  eexists. split.
  - apply (acquire_negative_timeout_one_attempt 0 None (- SECOND)
             (sample_contended 5)
             (on_world (set_busy (repeat true 4)) (sample_contended 5))).
    + vm_compute. reflexivity.
    + vm_compute. discriminate.
    + reflexivity.
    + reflexivity.
  - split; reflexivity.
Defined.

(** X6.  [iterator()] and [write_batch()] ask for the indefinite lease
    but wait no longer than any other call: with the store unavailable
    they raise [LevelDBAcquisitionFailure] once the default timeout is
    over and leave the manager without a handle.  When they return, the
    handle is open, the deadline indefinite, the iterator has no cursor
    yet and the batch is empty and bound to that handle. *)
Theorem indefinite_entry_points_time_out :
  forall fuel s,
    (forall ik iv,
        match iterator fuel ik iv s with
        | Return it s' =>
            is_acquired s' = true /\ _release_time (self s') = Inf
            /\ it = Iterator.mk ik iv None
        | Raise e s' =>
            _db (self s') = None
            /\ (e = LevelDBAcquisitionFailure -> time_limit None s <= now s')
        | OutOfFuel => True
        end)
    /\ (forall tr sy,
           match write_batch fuel tr sy s with
           | Return b s' =>
               is_acquired s' = true /\ _release_time (self s') = Inf
               /\ exists h, _db (self s') = Some h
                            /\ b = WriteBatch.mk tr sy h []
           | Raise e s' =>
               _db (self s') = None
               /\ (e = LevelDBAcquisitionFailure -> time_limit None s <= now s')
           | OutOfFuel => True
           end).
Proof.
  intros fuel s.
  assert (Hfalse : forall s', acquire fuel (Some INF_RELEASE_TIME) None s = Return false s' ->
                              _db (self s') = None /\ time_limit None s <= now s').
  { intros s' E. pose proof (acquire_time_limit _ _ _ _ _ _ E) as (H1 & _ & H2 & _).
    auto. }
  split.
  - intros ik iv. unfold iterator, load_leveldb_deco, bind, ret, raise.
    destruct (acquire fuel (Some INF_RELEASE_TIME) None s) as [[|] s' | e s' |] eqn:E.
    + destruct (acquire_INF _ _ _ _ E). auto.
    + destruct (Hfalse s' eq_refl). auto.
    + destruct (acquire_raise_not_acquired _ _ _ _ _ _ E) as (-> & Hdb & _).
      split; [exact Hdb | discriminate].
    + exact I.
  - intros tr sy. unfold write_batch, load_leveldb_deco, bind, ret, raise.
    destruct (acquire fuel (Some INF_RELEASE_TIME) None s) as [[|] s' | e s' |] eqn:E.
    + destruct (acquire_INF _ _ _ _ E) as (Ha & Hr).
      unfold WriteBatch.__init__, db. unfold is_acquired in Ha.
      destruct (_db (self s')) eqn:Hdb; [| discriminate].
      unfold is_acquired. rewrite Hdb. eauto.
    + destruct (Hfalse s' eq_refl). auto.
    + destruct (acquire_raise_not_acquired _ _ _ _ _ _ E) as (-> & Hdb & _).
      split; [exact Hdb | discriminate].
    + exact I.
Qed.

(** [udb.iterator()] while the store is held for the coming 60 opens. *)
Lemma indefinite_entry_points_time_out_witness :
  exists s', iterator 60 true true (sample_contended 60)
             = Raise LevelDBAcquisitionFailure s'
             /\ now (sample_contended 60) + 5 * SECOND <= now s'.
Proof.
  destruct (indefinite_entry_points_time_out 60 (sample_contended 60)) as (H & _).
  specialize (H true true).
  destruct (iterator 60 true true (sample_contended 60)) as [it s' | e s' |] eqn:E;
    try (exfalso; revert E; vm_compute; discriminate).
  assert (He : e = LevelDBAcquisitionFailure).
  { revert E. vm_compute. intros E. inversion E. reflexivity. }
  subst e. exists s'. split; [reflexivity |].
  destruct H as (_ & H). exact (H eq_refl).
Defined.

(** ** Deadline arithmetic *)

Lemma td_seconds_test d :
  (1 <? 10 * td_seconds d) = negb (d mod DAY <? SECOND).
Proof.
  unfold td_seconds.
  assert (Hd : 0 <= d mod DAY < DAY) by (apply Z.mod_pos_bound; unfold DAY, SECOND; lia).
  assert (Hs : 0 < SECOND) by (unfold SECOND; lia).
  destruct (Z.ltb_spec (d mod DAY) SECOND) as [Hlt | Hge]; simpl.
  - rewrite Z.div_small by lia. reflexivity.
  - apply Z.ltb_lt.
    assert (1 <= d mod DAY / SECOND) by (apply Z.div_le_lower_bound; lia). lia.
Qed.

Lemma release_time_differs_rule c t :
  release_time_differs (At c) t = negb (Z.abs (t - c) mod DAY <? SECOND).
Proof.
  unfold release_time_differs. rewrite !td_seconds_test.
  destruct (Z.ltb_spec c t), (Z.ltb_spec t c); try lia; cbn [andb orb].
  - rewrite Z.abs_eq by lia. now rewrite orb_false_r.
  - replace (Z.abs (t - c)) with (c - t) by lia. reflexivity.
  - replace (t - c) with 0 by lia. reflexivity.
Qed.

(** X7.  The debounce, exactly.  A request for the instant [t] against a
    concrete deadline [c] is applied (and notified) when the distance
    between them, taken modulo one day, is at least one second, and is
    dropped otherwise: the test reads the seconds field of the
    difference, which leaves out both the microseconds and the days. *)
Theorem deadline_update_rule :
  forall t c s,
    _release_time (self s) = At c ->
    let s' := _set_release_time (Datetime t) s in
    if Z.abs (t - c) mod DAY <? SECOND
    then s' = s
    else _release_time (self s') = At t
         /\ notified (world s') = S (notified (world s))
         /\ _db (self s') = _db (self s).
Proof.
  intros t c s Hc s'. subst s'.
  pose proof (release_time_differs_rule c t) as R.
  destruct (Z.abs (t - c) mod DAY <? SECOND); simpl in R.
  - apply _set_release_time_ignored. now rewrite Hc.
  - split; [| split; [| apply _set_release_time_db]];
      apply _set_release_time_applied; now rewrite Hc.
Qed.

(** A deadline in 5 s against a request for a day and 5.5 s ahead. *)
Lemma deadline_update_rule_witness :
  _set_release_time (Datetime (DAY + 5 * SECOND + 500000)) sample_open = sample_open.
Proof.
  exact (deadline_update_rule (DAY + 5 * SECOND + 500000) (5 * SECOND)
           sample_open eq_refl).
Defined.

(** X8.  The deadline a successful [acquire] leaves.  With the interval
    [x = release_interval or auto_release_interval] (so [None] and [0]
    both mean the default): the sentinel [-1] makes the deadline
    indefinite; any other [x] requests the instant [now + max(0, x)],
    never one in the past, which replaces the deadline the manager had
    on entry if the debounce lets it through. *)
Theorem acquire_deadline :
  forall fuel release_interval timeout s s',
    acquire fuel release_interval timeout s = Return true s' ->
    let x := py_or release_interval (_auto_release_interval (self s)) in
    let t := now s' + Z.max 0 x in
    now s' <= t
    /\ _release_time (self s')
       = if x =? INF_RELEASE_TIME then Inf
         else if release_time_differs (_release_time (self s)) t then At t
              else _release_time (self s).
Proof.
  intros fuel ri to s s' H x t. split; [subst t; lia |].
  pose proof (acquire_post_holds fuel ri to s) as P.
  rewrite H in P. cbn [acquire_post] in P. fold x in P.
  destruct P as (s0 & s1 & (Hs0 & _) & Hcase & ->).
  assert (Hrt : _release_time (self s1) = _release_time (self s)).
  { destruct Hcase as [[-> _] | (_ & Hs1 & _)].
    - now rewrite Hs0.
    - rewrite Hs1. simpl. now rewrite Hs0. }
  subst t. rewrite _set_release_time_now.
  unfold _set_release_time.
  destruct (x =? INF_RELEASE_TIME); [reflexivity |].
  rewrite Hrt, (Z.add_comm (now s1)).
  destruct (release_time_differs _ _); simpl; [reflexivity | exact Hrt].
Qed.

(** [acquire(release_interval=-2)]: the handle is opened and its
    deadline is the instant of the call. *)
Lemma acquire_deadline_witness :
  exists s', acquire 1 (Some (-2 * SECOND)) None sample_init = Return true s'
             /\ _release_time (self s') = At (now s').
Proof.
  destruct (acquire 1 (Some (-2 * SECOND)) None sample_init)
    as [[|] s' | e s' |] eqn:E;
    try (exfalso; revert E; vm_compute; discriminate).
  exists s'. split; [reflexivity |].
  destruct (acquire_deadline _ _ _ _ _ E) as (_ & H).
  cbv zeta in H.
  change (py_or (Some (-2 * SECOND)) (_auto_release_interval (self sample_init)))
    with (-2000000) in H.
  change (_release_time (self sample_init)) with Inf in H.
  change (-2000000 =? INF_RELEASE_TIME) with false in H.
  cbn [release_time_differs] in H.
  change (Z.max 0 (-2000000)) with 0 in H.
  rewrite Z.add_0_r in H. exact H.
Defined.

(** ** [release], [suspend_releaser], [restart_releaser] *)

(** X9.  [release] is idempotent, does nothing without a handle, and on
    an open handle ends any suspension: the handle is kept, the deadline
    is a concrete instant afterwards, and it is the present instant if
    the deadline was indefinite. *)
Theorem release_ends_suspension :
  forall s,
    release (release s) = release s
    /\ (is_acquired s = false -> release s = s)
    /\ (is_acquired s = true ->
        _db (self (release s)) = _db (self s)
        /\ releaser_is_suspended (release s) = false
        /\ (_release_time (self s) = Inf ->
            _release_time (self (release s)) = At (now s))).
Proof.
  intros s. destruct (is_acquired s) eqn:Ha.
  - assert (E : release s = _set_release_time (Datetime (now s)) s)
      by (unfold release; now rewrite Ha).
    rewrite !E.
    assert (Hsusp : releaser_is_suspended (_set_release_time (Datetime (now s)) s) = false
                    /\ release (_set_release_time (Datetime (now s)) s)
                       = _set_release_time (Datetime (now s)) s).
    { unfold release. rewrite is_acquired_set_release_time, Ha, _set_release_time_now.
      destruct (release_time_differs (_release_time (self s)) (now s)) eqn:Hd.
      - destruct (_set_release_time_applied _ _ Hd) as (Hrt & _).
        split; [unfold releaser_is_suspended; now rewrite Hrt |].
        apply _set_release_time_ignored. rewrite Hrt.
        apply release_time_differs_near. rewrite Z.sub_diag. unfold SECOND. simpl. lia.
      - rewrite (_set_release_time_ignored _ _ Hd).
        split; [| now apply _set_release_time_ignored].
        unfold releaser_is_suspended.
        destruct (_release_time (self s)); [discriminate | reflexivity]. }
    destruct Hsusp as (H1 & H2).
    split; [exact H2 |]. split; [discriminate |].
    intros _. split; [apply _set_release_time_db |]. split; [exact H1 |].
    intros Hr. apply _set_release_time_applied. now rewrite Hr.
  - assert (E : release s = s) by (unfold release; now rewrite Ha).
    rewrite !E. split; [reflexivity |].
    split; [reflexivity | discriminate].
Qed.

(** An iterator's indefinite lease, released. *)
Lemma release_ends_suspension_witness :
  exists it s, iterator 1 true true sample_init = Return it s
               /\ releaser_is_suspended s = true
               /\ releaser_is_suspended (release s) = false
               /\ _db (self (release s)) = Some 0%nat.
Proof.
  destruct (iterator 1 true true sample_init) as [it s | e s |] eqn:E;
    try (exfalso; revert E; vm_compute; discriminate).
  assert (Hs : is_acquired s = true /\ _db (self s) = Some 0%nat
               /\ releaser_is_suspended s = true).
  { revert E. vm_compute. intros E. inversion E. auto. }
  destruct Hs as (Ha & Hdb & Hsu).
  exists it, s. split; [reflexivity |]. split; [exact Hsu |].
  destruct (release_ends_suspension s) as (_ & _ & H).
  destruct (H Ha) as (H1 & H2 & _).
  split; [exact H2 | now rewrite H1].
Defined.

(** X10.  [suspend_releaser] reports nothing: with a positive retry
    interval it returns normally, whether or not it could acquire, and
    never raises.  When it has returned with the handle open the
    deadline is indefinite; it has returned without a handle only if
    there was none and it was told not to acquire (then nothing changed)
    or the acquisition timed out (then the time limit has passed).  With
    a negative retry interval the only exception is the [ValueError] of
    [sleep]. *)
Theorem suspend_releaser_outcome :
  forall a timeout s,
    (0 < _retry_interval (self s) ->
     exists n, forall fuel, (n <= fuel)%nat ->
       exists s', suspend_releaser fuel a timeout s = Return tt s')
    /\ forall fuel,
         match suspend_releaser fuel a timeout s with
         | Return _ s' =>
             if is_acquired s' then _release_time (self s') = Inf
             else is_acquired s = false
                  /\ if a then time_limit timeout s <= now s' /\ self s' = self s
                     else s' = s
         | Raise e s' => e = ValueError /\ _retry_interval (self s) < 0
         | OutOfFuel => is_acquired s = false /\ a = true
         end.
Proof.
  intros a to s. split.
  - intros Hr. destruct (acquire_terminates (Some INF_RELEASE_TIME) to s Hr) as (n & Hn).
    exists n. intros fuel Hle. specialize (Hn fuel Hle).
    unfold suspend_releaser. destruct (is_acquired s); [eauto |].
    destruct a; [| eauto].
    unfold bind, ret.
    pose proof (acquire_post_holds fuel (Some INF_RELEASE_TIME) to s) as P.
    destruct (acquire fuel (Some INF_RELEASE_TIME) to s) as [b s1 | e s1 |];
      [eauto | | now contradict Hn].
    destruct P as (_ & _ & Hneg). lia.
  - intros fuel. unfold suspend_releaser.
    destruct (is_acquired s) eqn:Ha.
    + rewrite is_acquired_set_release_time, Ha. reflexivity.
    + destruct a; [| now rewrite Ha].
      unfold bind, ret.
      pose proof (acquire_post_holds fuel (Some INF_RELEASE_TIME) to s) as P.
      destruct (acquire fuel (Some INF_RELEASE_TIME) to s) as [[|] s1 | e s1 |] eqn:E.
      * destruct (acquire_INF _ _ _ _ E) as (Ha' & Hr). now rewrite Ha'.
      * pose proof (acquire_time_limit _ _ _ _ _ _ E) as (H1 & H2 & H3 & _).
        unfold is_acquired. rewrite H3. auto.
      * destruct P as (He & _ & Hneg). auto.
      * auto.
Qed.

(** [suspend_releaser()] while the store is held throughout: it
    returns, without a handle, after the time limit. *)
Lemma suspend_releaser_outcome_witness :
  exists fuel s',
    suspend_releaser fuel true None (sample_contended 60) = Return tt s'
    /\ if is_acquired s' then _release_time (self s') = Inf
       else time_limit None (sample_contended 60) <= now s'.
Proof.
  destruct (suspend_releaser_outcome true None (sample_contended 60)) as (Hret & Hout).
  destruct Hret as (n & Hn); [vm_compute; reflexivity |].
  destruct (Hn n (Nat.le_refl n)) as (s' & E).
  specialize (Hout n). rewrite E in Hout.
  exists n, s'. split; [exact E |].
  destruct (is_acquired s'); [exact Hout |].
  destruct Hout as (_ & Hlim & _). exact Hlim.
Defined.

(** X11.  A restart after a suspension always takes effect: on an open
    handle, [suspend_releaser()] followed by [restart_releaser(x)] puts
    the deadline at [now + max(0, x or auto_release_interval)] whatever
    it was before the suspension (the debounce compares with the
    indefinite deadline, not with the earlier one), unless the interval
    is the sentinel. *)
Theorem restart_after_suspend :
  forall fuel fuel' a a' timeout timeout' release_interval s s1 s2,
    is_acquired s = true ->
    py_or release_interval (_auto_release_interval (self s)) <> INF_RELEASE_TIME ->
    suspend_releaser fuel a timeout s = Return tt s1 ->
    restart_releaser fuel' release_interval a' timeout' s1 = Return tt s2 ->
    _release_time (self s2)
    = At (now s + Z.max 0 (py_or release_interval (_auto_release_interval (self s))))
    /\ _db (self s2) = _db (self s)
    /\ now s2 = now s.
Proof.
  intros fuel fuel' a a' to to' ri s s1 s2 Ha Hne Hs Hr.
  unfold suspend_releaser in Hs. rewrite Ha in Hs. inversion Hs; subst s1. clear Hs.
  unfold restart_releaser in Hr.
  rewrite is_acquired_set_release_time, Ha in Hr. inversion Hr; subst s2. clear Hr.
  set (x := py_or ri (_auto_release_interval (self s))) in *.
  rewrite _set_release_time_number by exact Hne.
  rewrite !_set_release_time_db, !_set_release_time_now.
  split; [| split; reflexivity].
  rewrite (Z.add_comm (now s)).
  apply _set_release_time_applied. reflexivity.
Qed.

(** A deadline of 5 s, a suspension 50 ms later and a restart: the
    deadline moves to 5.05 s, which a restart alone would not do. *)
Lemma restart_after_suspend_witness :
  exists s s1 s2,
    _release_time (self s) = At (5 * SECOND) /\ now s = 50000
    /\ suspend_releaser 1 true None s = Return tt s1
    /\ restart_releaser 1 None true None s1 = Return tt s2
    /\ _release_time (self s2) = At (5 * SECOND + 50000)
    /\ restart_releaser 1 None true None s = Return tt s.
Proof.
  set (s := tick 50000
              (on_self (fun u => set__auto_releaser (Waiting Inf)
                                   (set__release_time (At (5 * SECOND))
                                      (set__db (Some 0%nat) u))) sample_init)).
  exists s, (_set_release_time (Number INF_RELEASE_TIME) s).
  eexists.
  split; [reflexivity |]. split; [reflexivity |].
  split; [reflexivity |]. split; [reflexivity |].
  split; [| reflexivity].
  apply (restart_after_suspend 1 1 true true None None None s
           (_set_release_time (Number INF_RELEASE_TIME) s) _).
  - reflexivity.
  - vm_compute. discriminate.
  - reflexivity.
  - reflexivity.
Defined.

(** ** [close] *)

Lemma release_concrete s :
  is_acquired s = true ->
  exists t, _release_time (self (release s)) = At t
            /\ _db (self (release s)) = _db (self s)
            /\ _auto_releaser (self (release s)) = _auto_releaser (self s)
            /\ is_closed (self (release s)) = is_closed (self s)
            /\ now (release s) = now s
            /\ store (world (release s)) = store (world s)
            /\ closes (world (release s)) = closes (world s).
Proof.
  intros Ha. unfold release. rewrite Ha.
  destruct (_set_release_time_thread (Datetime (now s)) s) as (Hth & Hcl).
  rewrite _set_release_time_db, Hth, Hcl, _set_release_time_now,
    _set_release_time_store, _set_release_time_closes.
  destruct (release_time_differs (_release_time (self s)) (now s)) eqn:Hd.
  - destruct (_set_release_time_applied _ _ Hd) as (Hrt & _). eauto 10.
  - rewrite (_set_release_time_ignored _ _ Hd).
    destruct (_release_time (self s)) as [| c]; [discriminate | eauto 10].
Qed.

Lemma join_closes n : forall m s h t rt,
  _auto_releaser (self s) = Waiting rt ->
  is_closed (self s) = true ->
  _db (self s) = Some h ->
  _release_time (self s) = At t ->
  t - now s <= Z.of_nat n * POLL ->
  exists s',
    join (S (n + m)) s = Return tt s'
    /\ _db (self s') = None /\ _release_time (self s') = Inf
    /\ _auto_releaser (self s') = Exited /\ is_closed (self s') = true
    /\ closes (world s') = S (closes (world s))
    /\ store (world s') = store (world s)
    /\ t <= now s'.
Proof.
  induction n as [| n IH]; intros m s h t rt Hth Hcl Hdb Hrt Hlim;
    cbn [join Nat.add]; unfold wake; rewrite Hth;
    destruct (_wait_predicate s) eqn:Hp.
  - apply _wait_predicate_spec in Hp as [Hp | [Hp | (t' & Hp & Hlt)]];
      try congruence.
    rewrite Hrt in Hp. inversion Hp; subst. lia.
  - cbn [_auto_release].
    change (is_closed (self (close_handle s))) with (is_closed (self s)).
    rewrite Hcl. cbn [self on_self set__auto_releaser _auto_releaser].
    eexists. split; [reflexivity |]. simpl.
    apply _wait_predicate_false in Hp as (h' & t' & _ & Ht' & Hle).
    rewrite Hrt in Ht'. inversion Ht'; subst. unfold now in Hle. auto 10.
  - cbn [self on_self set__auto_releaser _auto_releaser].
    destruct (IH m (tick POLL (on_self (set__auto_releaser
                                          (Waiting (_release_time (self s)))) s))
                h t (_release_time (self s)))
      as (s' & Hj & H); try assumption; try reflexivity.
    + unfold tick, now in *. simpl. lia.
    + exists s'. split; [exact Hj | exact H].
  - cbn [_auto_release].
    change (is_closed (self (close_handle s))) with (is_closed (self s)).
    rewrite Hcl. cbn [self on_self set__auto_releaser _auto_releaser].
    eexists. split; [reflexivity |]. simpl.
    apply _wait_predicate_false in Hp as (h' & t' & _ & Ht' & Hle).
    rewrite Hrt in Ht'. inversion Ht'; subst. unfold now in Hle. auto 10.
Qed.

(** X12.  [close()] on a manager that holds a handle comes back: with the
    maintenance thread waiting, it returns once the thread has found the
    deadline passed, and then the flag is set, the engine handle closed,
    the handle cleared and the thread finished; the store is untouched. *)
Theorem close_returns_with_open_handle :
  forall s h rt,
    _auto_releaser (self s) = Waiting rt ->
    _db (self s) = Some h ->
    exists n, forall fuel, (n <= fuel)%nat ->
      exists s',
        close fuel s = Return tt s'
        /\ is_closed (self s') = true
        /\ _db (self s') = None /\ _release_time (self s') = Inf
        /\ _auto_releaser (self s') = Exited
        /\ closes (world s') = S (closes (world s))
        /\ store (world s') = store (world s).
Proof.
  intros s h rt Hth Hdb.
  set (s0 := on_self (set_is_closed true) s).
  assert (Ha : is_acquired s0 = true) by (unfold is_acquired; simpl; now rewrite Hdb).
  destruct (release_concrete s0 Ha) as (t & Hrt & Hdb' & Hth' & Hcl' & Hnow & Hst & Hc).
  exists (S (Z.to_nat (Z.max 0 (t - now s)))). intros fuel Hfuel.
  destruct fuel as [| fuel]; [lia |].
  replace fuel with (Z.to_nat (Z.max 0 (t - now s))
                     + (fuel - Z.to_nat (Z.max 0 (t - now s))))%nat by lia.
  destruct (join_closes (Z.to_nat (Z.max 0 (t - now s)))
              (fuel - Z.to_nat (Z.max 0 (t - now s))) (release s0) h t rt)
    as (s' & Hj & H1 & H2 & H3 & H4 & H5 & H6 & _).
  - rewrite Hth'. exact Hth.
  - rewrite Hcl'. reflexivity.
  - rewrite Hdb'. exact Hdb.
  - exact Hrt.
  - rewrite Hnow. change (now s0) with (now s). unfold POLL. lia.
  - exists s'. unfold close. fold s0. rewrite Hj.
    rewrite H5, H6, Hc, Hst. auto 10.
Qed.

(** The default manager, its thread waiting, [acquire()] then [close()]. *)
Lemma close_returns_with_open_handle_witness :
  exists s s',
    _db (self s) = Some 0%nat
    /\ close 1 s = Return tt s'
    /\ _db (self s') = None /\ closes (world s') = 1%nat.
Proof.
  set (s := on_world (set_opens 1)
              (on_self (fun u => set__auto_releaser (Waiting Inf)
                                   (set__release_time (At (5 * SECOND))
                                      (set__db (Some 0%nat) u))) sample_init)).
  destruct (close_returns_with_open_handle s 0%nat Inf eq_refl eq_refl) as (n & H).
  destruct (H (Nat.max n 1) (Nat.le_max_l n 1)) as (s' & Hc & _ & Hdb & _ & _ & Hcl & _).
  assert (E : close 1 s = close (Nat.max n 1) s).
  { destruct (close 1 s) as [[] x | |] eqn:E1;
      try (exfalso; revert E1; vm_compute; discriminate).
    clear H. revert Hc. generalize (Nat.max n 1). intros k Hc.
    destruct k as [| k]; [discriminate |].
    rewrite <- E1. reflexivity. }
  exists s, s'. split; [reflexivity |]. split; [now rewrite E |].
  split; [exact Hdb | exact Hcl].
Defined.

(** X13.  [close()] on a manager without a handle never returns: the
    inner loop of the maintenance thread does not look at the closed
    flag, and without a handle the thread goes back to waiting at every
    poll, so the [join] is never over, whatever the fuel. *)
Theorem close_never_returns_without_handle :
  forall fuel s rt,
    _auto_releaser (self s) = Waiting rt ->
    _db (self s) = None ->
    close fuel s = OutOfFuel.
Proof. intros fuel s rt. apply close_blocks_without_handle. Qed.

(** [close()] right after construction, once the thread waits. *)
Lemma close_never_returns_without_handle_witness :
  exists s, wake 2 sample_init = Some s
            /\ close 1000 s = OutOfFuel.
Proof.
  destruct (wake_total sample_init) as (s & Hw).
  exists s. split; [exact Hw |].
  apply (close_never_returns_without_handle 1000 s Inf).
  - revert Hw. vm_compute. intros Hw. inversion Hw. reflexivity.
  - revert Hw. vm_compute. intros Hw. inversion Hw. reflexivity.
Defined.

(** ** Idle time *)

Lemma idle_store s s' : idle s s' -> store (world s') = store (world s).
Proof.
  induction 1 as [s | s s' d Hd _ IH | s s1 s' Hw _ IH]; [reflexivity | exact IH |].
  rewrite IH. destruct (wake_cases _ _ Hw) as [(th & ->) | (_ & th & ->)]; reflexivity.
Qed.

(** X14.  An indefinite lease outlasts any idle time: while the deadline
    is the sentinel, no passage of time and no scheduling of the
    maintenance thread, however many, closes the handle or changes the
    deadline. *)
Theorem indefinite_lease_survives_idle :
  forall s s',
    _release_time (self s) = Inf ->
    idle s s' ->
    _db (self s') = _db (self s)
    /\ _release_time (self s') = Inf
    /\ closes (world s') = closes (world s).
Proof.
  intros s s' Hr Hi. induction Hi as [s | s s' d Hd _ IH | s s1 s' Hw _ IH].
  - auto.
  - apply IH. exact Hr.
  - destruct (wake_cases _ _ Hw) as [(th & ->) | (Hp & _)].
    + apply IH. exact Hr.
    + apply _wait_predicate_false in Hp as (h & t & _ & Ht & _). congruence.
Qed.

(** An iterator is made and an hour passes, the thread polling. *)
Lemma indefinite_lease_survives_idle_witness :
  exists it s s',
    iterator 1 true true sample_init = Return it s
    /\ idle s s' /\ now s' = now s + 3600 * SECOND
    /\ _db (self s') = Some 0%nat.
Proof.
  destruct (iterator 1 true true sample_init) as [it s | e s |] eqn:E;
    try (exfalso; revert E; vm_compute; discriminate).
  assert (Hs : _release_time (self s) = Inf /\ _db (self s) = Some 0%nat).
  { revert E. vm_compute. intros E. inversion E. auto. }
  destruct Hs as (Hr & Hdb).
  destruct (wake_total (tick (3600 * SECOND) s)) as (s' & Hw).
  assert (Hi : idle s s').
  { apply (idle_tick s s' (3600 * SECOND)); [vm_compute; discriminate |].
    eapply idle_wake; [exact Hw | apply idle_refl]. }
  exists it, s, s'. split; [reflexivity |]. split; [exact Hi |].
  destruct (indefinite_lease_survives_idle s s' Hr Hi) as (H1 & _).
  split; [| now rewrite H1].
  destruct (wake_cases _ _ Hw) as [(th & ->) | (_ & th & ->)]; reflexivity.
Defined.

(** ** The facade across idle time *)

Lemma acquire_true_store fuel release_interval timeout s s' :
  acquire fuel release_interval timeout s = Return true s' ->
  store (world s') = store (world s).
Proof.
  intros H. pose proof (acquire_post_holds fuel release_interval timeout s) as P.
  rewrite H in P. destruct P as (s0 & s1 & (_ & Hst & _) & Hcase & ->).
  rewrite _set_release_time_store.
  destruct Hcase as [[-> _] | (_ & _ & _ & Hst1 & _)]; congruence.
Qed.

Lemma facade_result fuel op s v s' :
  facade fuel op s = Return v s' ->
  (store (world s'), v) = engine_effect op (store (world s)).
Proof.
  rewrite facade_unfold.
  destruct (acquire fuel None None s) as [[|] sa | e sa |] eqn:E; try discriminate.
  pose proof (acquire_true_store _ _ _ _ _ E) as Hst.
  pose proof (acquire_true_acquired _ _ _ _ _ E) as Ha.
  unfold db. unfold is_acquired in Ha.
  destruct (_db (self sa)); [| discriminate].
  rewrite <- Hst.
  destruct (engine_effect op (store (world sa))) as [m v'].
  intros H. inversion H; subst. reflexivity.
Qed.

(** X15.  What [put] stores, [get] returns, also after the handle has
    been closed in between: a [get] that returns after a [put] and any
    idle time yields the value put for that key, and for another key
    what the store held before the [put] (or the default). *)
Theorem get_after_put :
  forall fuel fuel' key value s s1 s2 key' default r s3,
    put fuel key value s = Return tt s1 ->
    idle s1 s2 ->
    get fuel' key' default s2 = Return r s3 ->
    r = if String.eqb key key' then Some value
        else match store (world s) !! key' with
             | Some v => Some v
             | None => default
             end.
Proof.
  intros fuel fuel' k v s s1 s2 k' d r s3 Hput Hidle Hget.
  assert (Hp : facade fuel (FPut k v) s = Return None s1).
  { unfold facade, bind, ret. now rewrite Hput. }
  apply facade_result in Hp. simpl in Hp. injection Hp as Hst1.
  apply (facade_result fuel' (FGet k' d)) in Hget. simpl in Hget.
  injection Hget as Hst3 Hr.
  rewrite Hr, (idle_store _ _ Hidle), Hst1.
  destruct (String.eqb_spec k k') as [-> | Hne].
  - now rewrite lookup_insert_eq.
  - now rewrite lookup_insert_ne.
Qed.

(** [put("a", "1")], 5.1 s of silence in which the handle is closed,
    [get("a")]: the store is reopened and the value returned. *)
Lemma get_after_put_witness :
  exists s1 s2 s3,
    put 1 "a" "1" sample_expired = Return tt s1
    /\ wake 2 (tick (5 * SECOND + POLL) s1) = Some s2
    /\ _db (self s2) = None
    /\ get 1 "a" None s2 = Return (Some "1"%string) s3
    /\ _db (self s3) = Some 0%nat.
Proof.
  destruct (put 1 "a" "1" sample_expired) as [[] s1 | e s1 |] eqn:E1;
    try (exfalso; revert E1; vm_compute; discriminate).
  destruct (wake_total (tick (5 * SECOND + POLL) s1)) as (s2 & Hw).
  destruct (get 1 "a" None s2) as [r s3 | e s3 |] eqn:E3;
    try (exfalso; revert E3; vm_compute in E1; inversion E1; subst;
         vm_compute in Hw; inversion Hw; subst; vm_compute; discriminate).
  assert (Hi : idle s1 s2).
  { apply (idle_tick s1 s2 (5 * SECOND + POLL)); [vm_compute; discriminate |].
    eapply idle_wake; [exact Hw | apply idle_refl]. }
  pose proof (get_after_put _ _ _ _ _ _ _ _ _ _ _ E1 Hi E3) as Hr.
  rewrite String.eqb_refl in Hr. subst r.
  exists s1, s2, s3. split; [reflexivity |]. split; [exact Hw |].
  vm_compute in E1. inversion E1; subst.
  vm_compute in Hw. inversion Hw; subst.
  vm_compute in E3. inversion E3; subst.
  repeat split.
Defined.

(** X16.  After a [delete], a [get] of the key returns the default,
    whether or not the key was present and whatever idle time lies
    between; other keys are as they were. *)
Theorem get_after_delete :
  forall fuel fuel' key s s1 s2 key' default r s3,
    delete_ fuel key s = Return tt s1 ->
    idle s1 s2 ->
    get fuel' key' default s2 = Return r s3 ->
    r = if String.eqb key key' then default
        else match store (world s) !! key' with
             | Some v => Some v
             | None => default
             end.
Proof.
  intros fuel fuel' k s s1 s2 k' d r s3 Hdel Hidle Hget.
  assert (Hp : facade fuel (FDelete k) s = Return None s1).
  { unfold facade, bind, ret. now rewrite Hdel. }
  apply facade_result in Hp. simpl in Hp. injection Hp as Hst1.
  apply (facade_result fuel' (FGet k' d)) in Hget. simpl in Hget.
  injection Hget as Hst3 Hr.
  rewrite Hr, (idle_store _ _ Hidle), Hst1.
  destruct (String.eqb_spec k k') as [-> | Hne].
  - now rewrite lookup_delete_eq.
  - now rewrite lookup_delete_ne.
Qed.

(** [delete("a")] of a key that is not there, then [get("a", "none")]. *)
Lemma get_after_delete_witness :
  exists s1 s3,
    delete_ 1 "a" sample_init = Return tt s1
    /\ get 1 "a" (Some "none"%string) s1 = Return (Some "none"%string) s3.
Proof.
  destruct (delete_ 1 "a" sample_init) as [[] s1 | e s1 |] eqn:E1;
    try (exfalso; revert E1; vm_compute; discriminate).
  destruct (get 1 "a" (Some "none"%string) s1) as [r s3 | e s3 |] eqn:E3;
    try (exfalso; revert E3; vm_compute in E1; inversion E1; subst;
         vm_compute; discriminate).
  pose proof (get_after_delete _ _ _ _ _ _ _ _ _ _ E1 (idle_refl s1) E3) as Hr.
  rewrite String.eqb_refl in Hr. subst r.
  exists s1, s3. split; [reflexivity | exact E3].
Defined.

(** ** Iteration *)

#[local] Instance key_le_total : Total Iterator.key_le.
Proof. intros x y. apply String.leb_total. Qed.

(** The cursor goes through every entry of the store once, by
    ascending key. *)
Lemma db_entries_Permutation m : Iterator.db_entries m ≡ₚ map_to_list m.
Proof. apply merge_sort_Permutation. Qed.

Lemma db_entries_Sorted m : Sorted Iterator.key_le (Iterator.db_entries m).
Proof. apply (Sorted_merge_sort Iterator.key_le). Qed.

Lemma db_entries_lookup m k v :
  (k, v) ∈ Iterator.db_entries m <-> m !! k = Some v.
Proof. rewrite db_entries_Permutation. apply elem_of_map_to_list. Qed.

Lemma db_entries_length m : length (Iterator.db_entries m) = size m.
Proof. rewrite db_entries_Permutation. apply length_map_to_list. Qed.






Lemma for_each_suspended cur : forall rounds fuel it acc s,
  (length cur < rounds)%nat ->
  for_each rounds fuel it (Iterator.Suspended cur) acc s
  = Return (acc ++ cur, (Iterator.close it s).1) (release s).
Proof.
  induction cur as [| x cur IH]; intros rounds fuel it acc s Hlen;
    (destruct rounds as [| rounds]; [simpl in Hlen; lia |]); cbn [for_each Iterator.next].
  - simpl. now rewrite app_nil_r.
  - cbn [Iterator.yield_from]. rewrite IH by (simpl in Hlen; lia).
    now rewrite <- app_assoc.
Qed.

(** X18.  A loop over the iterator, run to its end on an open handle,
    collects the entries of the store, each once and by ascending key,
    and ends with the lease given back: the handle is still open, its
    deadline is the instant the loop ended, the cursor is detached, and
    the store is as it was. *)
Theorem iteration_to_the_end :
  forall fuel it s,
    is_acquired s = true ->
    let entries := Iterator.db_entries (store (world s)) in
    exists it' s',
      for_each (S (length entries)) fuel it (Iterator.__iter__ it) [] s
      = Return (Iterator.db_iterator it (store (world s)), it') s'
      /\ Sorted Iterator.key_le entries
      /\ (forall k v, (k, v) ∈ entries <-> store (world s) !! k = Some v)
      /\ length entries = size (store (world s))
      /\ Iterator.iterator it' = None
      /\ _db (self s') = _db (self s)
      /\ _release_time (self s') = At (now s)
      /\ store (world s') = store (world s).
Proof.
  intros fuel it s Ha entries.
  set (cur := Iterator.db_iterator it (store (world s))).
  assert (Hlen : length cur = length entries).
  { unfold cur, Iterator.db_iterator. apply length_fmap. }
  set (s1 := _set_release_time (Number INF_RELEASE_TIME) s).
  set (it1 := Iterator.mk (Iterator.include_key it) (Iterator.include_value it)
                          (Some cur)).
  assert (Ha1 : is_acquired s1 = true)
    by (unfold s1; now rewrite is_acquired_set_release_time).
  assert (E : for_each (S (length entries)) fuel it (Iterator.__iter__ it) [] s
              = for_each (S (length entries)) fuel it1 (Iterator.Suspended cur) [] s1).
  { unfold Iterator.__iter__. cbn [for_each Iterator.next].
    rewrite Ha. unfold suspend_releaser. rewrite Ha. fold s1.
    unfold db. unfold is_acquired in Ha1.
    destruct (_db (self s1)); [| discriminate].
    unfold s1 at 1. rewrite _set_release_time_store. reflexivity. }
  rewrite E, for_each_suspended by lia.
  destruct (release_from_Inf s1 Ha1 eq_refl) as (Hrt & Hdb).
  eexists. eexists. split; [reflexivity |].
  split; [apply db_entries_Sorted |].
  split; [intros k v; apply db_entries_lookup |].
  split; [apply db_entries_length |].
  split; [reflexivity |].
  split; [rewrite Hdb; apply _set_release_time_db |].
  split; [rewrite Hrt; unfold s1; now rewrite _set_release_time_now |].
  unfold release. rewrite Ha1, _set_release_time_store.
  apply _set_release_time_store.
Qed.

(** A loop over the keys of a store with three entries. *)
Lemma iteration_to_the_end_witness :
  exists it' s',
    for_each 4 1 (Iterator.mk true false None) Iterator.Created [] sample_three_entries
    = Return ([Iterator.Key "a"; Iterator.Key "b"; Iterator.Key "c"], it') s'
    /\ _release_time (self s') = At (now sample_three_entries).
Proof.
  destruct (iteration_to_the_end 1 (Iterator.mk true false None)
              sample_three_entries eq_refl)
    as (it' & s' & H & _ & _ & _ & _ & _ & Hrt & _).
  exists it', s'. split; [exact H | exact Hrt].
Defined.

(** ** Batches *)

(** Handles are named apart: on a run from [__init__] the handle held
    has a serial number below the count of opens, so the handle of a
    later open differs from that of every batch made before. *)
Lemma handle_serial_below_opens p a r t w s' :
  steps (__init__ p a r t w) s' ->
  forall h, _db (self s') = Some h -> (h < opens (world s'))%nat.
Proof.
  intros Hs.
  apply (preserved_steps
           (fun x => forall h, _db (self x) = Some h -> (h < opens (world x))%nat))
    with (s := __init__ p a r t w); try exact Hs.
  - intros v x H h. rewrite _set_release_time_db, _set_release_time_opens. apply H.
  - intros x x' (Hself & _ & Ho & _) H h. rewrite Hself, Ho. apply H.
  - intros x x' (_ & Hself & Ho & _) H h. rewrite Hself, Ho. simpl.
    intros E. inversion E. lia.
  - intros m x H. exact H.
  - intros d x _ H. exact H.
  - intros x x' Hw H.
    destruct (wake_cases x x' Hw) as [(th & ->) | (_ & th & ->)]; [exact H |].
    simpl. discriminate.
  - intros x H. exact H.
  - simpl. discriminate.
Qed.

(** X19.  An explicit [write()] on a batch.  While the handle the batch
    was made on is the manager's, it commits and releases: every key
    holds the value last put for it in the batch, every other key what
    it held before, the handle is kept, and a deadline that was
    indefinite is the instant of the call.  Once that handle has been
    closed (or replaced by a later one) it raises [RuntimeError] and
    changes nothing. *)
Theorem batch_write_commits :
  forall b s,
    if WriteBatch.handle_open b s then
      exists s',
        WriteBatch.write b s = Return tt s'
        /\ (forall key,
              store (world s') !! key
              = match last_write key (WriteBatch.wb b) with
                | Some v => Some v
                | None => store (world s) !! key
                end)
        /\ _db (self s') = _db (self s)
        /\ (_release_time (self s) = Inf -> _release_time (self s') = At (now s))
    else WriteBatch.write b s = Raise RuntimeError s.
Proof.
  intros b s. destruct (WriteBatch.handle_open b s) eqn:Ho.
  - rewrite (batch_write_returns b s Ho).
    eexists. split; [reflexivity |].
    pose proof (batch_write_store b s tt _ (batch_write_returns b s Ho))
      as (_ & Hst & Hdb & _).
    split; [intros key; rewrite Hst; apply wb_write_lookup |].
    split; [exact Hdb |].
    intros Hr.
    apply (release_from_Inf
             (on_world (set_store (WriteBatch.wb_write b (store (world s)))) s)).
    + unfold WriteBatch.handle_open in Ho. unfold is_acquired. simpl.
      destruct (_db (self s)); [reflexivity | discriminate].
    + exact Hr.
  - unfold WriteBatch.write. now rewrite Ho.
Qed.

(** Two puts to one key and a put to another, written on the open
    handle; the same batch after the handle has been closed. *)
Lemma batch_write_commits_witness :
  (exists s', WriteBatch.write sample_batch sample_acquired = Return tt s'
              /\ store (world s') !! "a" = Some "3"%string
              /\ store (world s') !! "b" = Some "2"%string
              /\ _release_time (self s') = At (now sample_acquired))
  /\ WriteBatch.write sample_batch sample_init = Raise RuntimeError sample_init.
Proof.
  split.
  - pose proof (batch_write_commits sample_batch sample_acquired) as H.
    change (WriteBatch.handle_open sample_batch sample_acquired) with true in H.
    destruct H as (s' & Hw & Hk & _ & Hr).
    exists s'. split; [exact Hw |].
    split; [rewrite Hk; reflexivity |].
    split; [rewrite Hk; reflexivity | apply Hr; reflexivity].
  - exact (batch_write_commits sample_batch sample_init).
Defined.

(** X20.  Writing a batch twice is writing it once: [write()] does not
    clear the buffer, and a second [write()] right after one that
    returned returns as well and leaves the store as the first one left
    it. *)
Theorem batch_write_twice :
  forall b s s1,
    WriteBatch.write b s = Return tt s1 ->
    exists s2,
      WriteBatch.write b s1 = Return tt s2
      /\ store (world s2) = store (world s1)
      /\ _db (self s2) = _db (self s).
Proof.
  intros b s s1 H1.
  destruct (batch_write_store b s tt s1 H1) as (Ho & Hst1 & Hdb1 & _).
  assert (Ho1 : WriteBatch.handle_open b s1 = true).
  { unfold WriteBatch.handle_open in *. now rewrite Hdb1. }
  rewrite (batch_write_returns b s1 Ho1).
  eexists. split; [reflexivity |].
  destruct (batch_write_store b s1 tt _ (batch_write_returns b s1 Ho1))
    as (_ & Hst2 & Hdb2 & _).
  split; [| now rewrite Hdb2].
  rewrite Hst2, Hst1. apply map_eq. intros key.
  rewrite !wb_write_lookup. destruct (last_write key (WriteBatch.wb b)); reflexivity.
Qed.

(** The batch of three puts, written twice on the open handle. *)
Lemma batch_write_twice_witness :
  exists s1 s2,
    WriteBatch.write sample_batch sample_acquired = Return tt s1
    /\ WriteBatch.write sample_batch s1 = Return tt s2
    /\ store (world s2) = store (world s1).
Proof.
  destruct (WriteBatch.write sample_batch sample_acquired) as [[] s1 | e s1 |] eqn:E;
    try (exfalso; revert E; vm_compute; discriminate).
  destruct (batch_write_twice sample_batch sample_acquired s1 E) as (s2 & H2 & Hst & _).
  exists s1, s2. split; [reflexivity |]. split; [exact H2 | exact Hst].
Defined.

(** ** The manager as a context *)

Lemma release_deadline s :
  is_acquired s = true ->
  _db (self (release s)) = _db (self s)
  /\ _release_time (self (release s))
     = match _release_time (self s) with
       | Inf => At (now s)
       | At c => if Z.abs (now s - c) mod DAY <? SECOND then At c else At (now s)
       end.
Proof.
  intros Ha. unfold release. rewrite Ha. split; [apply _set_release_time_db |].
  destruct (_release_time (self s)) as [| c] eqn:Hc.
  - apply _set_release_time_applied. now rewrite Hc.
  - pose proof (release_time_differs_rule c (now s)) as R.
    destruct (Z.abs (now s - c) mod DAY <? SECOND); simpl in R.
    + rewrite _set_release_time_ignored by now rewrite Hc. exact Hc.
    + apply _set_release_time_applied. now rewrite Hc.
Qed.

(** X21.  [with udb:] whose block completes.  Entry has acquired the
    indefinite lease (the handle is open, the deadline indefinite when
    the block starts); exit is [release()] on the state the block left:
    the handle is kept and the deadline becomes the instant of the exit,
    from an indefinite deadline always, from a concrete one unless the
    debounce drops the request (the distance, modulo one day, is below
    one second). *)
Theorem udb_scope_normal_exit :
  forall fuel body s s1 s2,
    __enter__ fuel s = Return tt s1 ->
    body s1 = (None, s2) ->
    with_udb fuel body s = Return tt (release s2)
    /\ is_acquired s1 = true /\ _release_time (self s1) = Inf
    /\ (is_acquired s2 = true ->
        _db (self (release s2)) = _db (self s2)
        /\ _release_time (self (release s2))
           = match _release_time (self s2) with
             | Inf => At (now s2)
             | At c => if Z.abs (now s2 - c) mod DAY <? SECOND then At c
                       else At (now s2)
             end).
Proof.
  intros fuel body s s1 s2 He Hb.
  pose proof (__enter___post fuel s) as P. rewrite He in P.
  destruct P as (Ha & Hr).
  split; [| split; [exact Ha | split; [exact Hr | apply release_deadline]]].
  unfold with_udb, bind. rewrite He, Hb. reflexivity.
Qed.

(** [with udb: udb.put("a", "1")] on the default manager: the put moves
    the deadline 5 s ahead, the exit brings it back to the present. *)
Lemma udb_scope_normal_exit_witness :
  exists s',
    with_udb 1 block_puts sample_init = Return tt s'
    /\ _db (self s') = Some 0%nat
    /\ store (world s') !! "a" = Some "1"%string
    /\ _release_time (self s') = At (now s').
Proof.
  destruct (__enter__ 1 sample_init) as [[] s1 | e s1 |] eqn:E;
    try (exfalso; revert E; vm_compute; discriminate).
  assert (E1 : s1 = on_world (fun w => set_opens 1 w)
                      (on_self (set__db (Some 0%nat)) sample_init)).
  { revert E. vm_compute. intros E. inversion E. reflexivity. }
  destruct (block_puts s1) as [exc s2] eqn:Eb.
  assert (E2 : exc = None /\ is_acquired s2 = true
               /\ _release_time (self s2) = At (5 * SECOND) /\ now s2 = 0
               /\ _db (self s2) = Some 0%nat
               /\ store (world s2) !! "a" = Some "1"%string).
  { revert Eb. rewrite E1. vm_compute. intros Eb. inversion Eb. auto 10. }
  destruct E2 as (-> & Ha2 & Hrt2 & Hnow2 & Hdb2 & Hst2).
  destruct (udb_scope_normal_exit 1 block_puts sample_init s1 s2 E Eb)
    as (Hw & _ & _ & Hrel).
  destruct (Hrel Ha2) as (Hdb & Hrt).
  exists (release s2). split; [exact Hw |].
  split; [now rewrite Hdb |].
  split.
  { unfold release. rewrite Ha2, _set_release_time_store. exact Hst2. }
  rewrite Hrt, Hrt2, Hnow2.
  unfold release. rewrite Ha2, _set_release_time_now, Hnow2. reflexivity.
Defined.
